(** * dingo-ode: the explicit fixed-step ODE solver of package [solver]

    A shallow embedding of the solver package: the solve loop of
    [StandardSolver] and the Euler, RK2 and RK4 step algorithms
    ([solver.go]), the controllers ([controller.go]), the recorders
    [RecorderNone] and [RecorderTimeSeries] ([recorder.go]) and the export
    of a time series to a delimited text file, followed by the properties
    of the engine.  Package [system] comes next: the water tanks, the
    prey-predator model and the solver of a system ([system.go]), then
    the table of the demonstrations of the command.

    Modelling conventions.
    - [float64] is a type [F] with the operations the code applies to it
      (class [Float64Ops]).  The code is embedded once, over any such [F],
      and the properties are proved for every [F]: they hold of the
      instance [float64_ops], the binary64 numbers the program computes
      with, on which the runs that depend on rounding are evaluated.  The
      rationals [Q] are a second instance, for runs without rounding.
    - [uint64] is [N] with the wrap-around of [++] written out.
    - A Go slice is a [list]; an index expression out of range is a runtime
      panic and is modelled as such.
    - The callables handed to the solver (derivative function, controller,
      recorder) are Go closures and pointer receivers: they run in a monad
      [M] that threads the memory [W] they may read and write.  A
      computation returns, panics, or exhausts the loop budget of the
      model; each outcome carries the memory reached.  A [nil] function
      value is the computation that panics when called.
    - A Go [error] value is an [option]: [None] is [nil].  [Solve] compares
      [f] and [r] with [nil]: these two arguments are options. *)

From Stdlib Require Import ZArith NArith QArith Qabs Qround Qpower Lia Lqa Ascii.
From Stdlib Require Import Floats.
From stdpp Require Import base option list strings pretty.

(* ------------------------------------------------------------------ *)
(** ** float64 and its operations *)

Class Float64Ops (F : Type) := {
  flit : Q -> F;            (* a numeric literal of the source text *)
  fadd : F -> F -> F;
  fsub : F -> F -> F;
  fmul : F -> F -> F;
  fdiv : F -> F -> F;
  fabs : F -> F;            (* math.Abs *)
  fltb : F -> F -> bool;    (* <  *)
  fleb : F -> F -> bool     (* <= *)
}.

(** Rational numbers: arithmetic without rounding, used for runs on
    numbers that binary64 represents and computes exactly. *)
#[export] Instance Q_ops : Float64Ops Q := {
  flit q := q;
  fadd := Qplus;
  fsub := Qminus;
  fmul := Qmult;
  fdiv := Qdiv;
  fabs := Qabs;
  fltb x y := negb (Qle_bool y x);
  fleb := Qle_bool
}.

(** [float64] itself: the IEEE 754 binary64 numbers with their rounding
    to nearest, ties to even, as the primitive floating-point numbers of
    Rocq.  A literal of the source text stands for the binary64 number
    nearest to it: the quotient below is that number when the numerator
    and the denominator of the literal are below [2^53], as they are for
    all the literals of the code. *)
Definition float64_of_Z (z : Z) : float :=
  match z with
  | Z0 => 0%float
  | Zpos _ => PrimFloat.of_uint63 (Uint63.of_Z z)
  | Zneg p => PrimFloat.opp (PrimFloat.of_uint63 (Uint63.of_Z (Zpos p)))
  end.

#[export] Instance float64_ops : Float64Ops float := {
  flit q :=
    PrimFloat.div (float64_of_Z (Qnum q)) (float64_of_Z (Zpos (Qden q)));
  fadd := PrimFloat.add;
  fsub := PrimFloat.sub;
  fmul := PrimFloat.mul;
  fdiv := PrimFloat.div;
  fabs := PrimFloat.abs;
  fltb := PrimFloat.ltb;
  fleb := PrimFloat.leb
}.

(** [error]: an error value carries its message. *)
Definition error := string.

(** The line feed, as a string. *)
Definition newline : string := String "010"%char EmptyString.

(** [uint64] arithmetic: [n++]. *)
Definition uint64_incr (n : N) : N := ((n + 1) mod 2 ^ 64)%N.

(* ------------------------------------------------------------------ *)
(** ** The monad of Go computations over a memory [W] *)

Inductive res (W A : Type) : Type :=
| Ret (a : A) (w : W)      (* normal return *)
| Crash (w : W)            (* runtime panic *)
| Fuel (w : W).            (* loop budget of the model exhausted *)
Arguments Ret {W A} a w.
Arguments Crash {W A} w.
Arguments Fuel {W A} w.

Definition M (W A : Type) : Type := W -> res W A.

Definition world_of {W A} (r : res W A) : W :=
  match r with Ret _ w | Crash w | Fuel w => w end.

Section GoMonad.
Context {W : Type}.

Definition ret {A} (a : A) : M W A := fun w => Ret a w.

Definition bind {A B} (m : M W A) (k : A -> M W B) : M W B :=
  fun w => match m w with
           | Ret a w' => k a w'
           | Crash w' => Crash w'
           | Fuel w' => Fuel w'
           end.

Definition panic {A} : M W A := fun w => Crash w.

Definition out_of_fuel {A} : M W A := fun w => Fuel w.

(** [l[i]] as an expression. *)
Definition index {A} (l : list A) (i : nat) : M W A :=
  match l !! i with
  | Some x => ret x
  | None => panic
  end.

(** [l[i] = v]. *)
Definition store {A} (l : list A) (i : nat) (v : A) : M W (list A) :=
  if decide (i < length l) then ret (<[i := v]> l) else panic.

(** [for i := i0; i < i0 + n; i++ { s = body i s }]. *)
Fixpoint for_range {St} (n i : nat) (body : nat -> St -> M W St) (s : St)
  : M W St :=
  match n with
  | O => ret s
  | S n' => bind (body i s) (for_range n' (S i) body)
  end.

(** [for i := 0; i < n; i++ { s = body i s }]. *)
Definition for_upto {St} (n : nat) (body : nat -> St -> M W St) (s : St)
  : M W St :=
  for_range n 0 body s.
End GoMonad.

Notation "'do' x <- m ;; k" := (bind m (fun x => k))
  (at level 10, x name, m at level 99, k at level 200,
   format "'[v' 'do'  x  <-  m  ;;  '/' k ']'").
Notation "'do' ' p <- m ;; k" := (bind m (fun x => let 'p := x in k))
  (at level 10, p pattern, m at level 99, k at level 200,
   format "'[v' 'do'  ' p  <-  m  ;;  '/' k ']'").

(* ------------------------------------------------------------------ *)
(** ** solver.go: types *)

Section Solver.
Context {F : Type} `{Float64Ops F} {W : Type}.

(** [type Function func(t float64, X []float64) (dXdt []float64, err error)] *)
Definition Function : Type := F -> list F -> M W (list F * option error).

(** [type Controller func(t float64, X []float64) (bool, error)] *)
Definition Controller : Type := F -> list F -> M W (bool * option error).

(** [type Recorder interface { Record(t float64, X []float64) }] *)
Record Recorder : Type := { Record : F -> list F -> M W unit }.

(** [type Iteration func(f Function, tn float64, Xn []float64, h float64)
    ([]float64, error)] *)
Definition Iteration : Type :=
  Function -> F -> list F -> F -> M W (list F * option error).

(** [type StandardSolver struct { t; X; iteration }] *)
Record StandardSolver : Type := {
  t : F;
  X : list F;
  iteration : Iteration
}.

(** [make([]float64, n)] *)
Definition make (n : nat) : list F := replicate n (flit 0).

(* ---------------------------------------------------------------- *)
(** ** recorder.go *)

(** [type TimeData struct { time float64; state []float64 }] *)
Record TimeData : Type := { time : F; state : list F }.

(** [type TimeSeries []TimeData] *)
Local Abbreviation TimeSeries := (list TimeData).

(** [func (recorder *RecorderNone) Record(t, X)]: does nothing. *)
Definition RecorderNone : Recorder := {| Record _ _ := ret tt |}.

(** [func (recorder *RecorderLogger) Record(t, X)]: prints [t], [X[0]] and
    [X[1]] on the standard output, here the action [fmt_Printf] on the
    memory. *)
Definition RecorderLogger (fmt_Printf : string -> list F -> M W unit)
  : Recorder :=
  {| Record t X :=
       do x0 <- index X 0 ;; do x1 <- index X 1 ;;
       fmt_Printf ("t: %.2f, X0: %.4f, X1: %.4f" +:+ newline) [t; x0; x1] |}.

(** [func (recorder *RecorderTimeSeries) Record(t, X)].  The receiver is a
    pointer into the memory: [get] reads its field [Series], [set] writes
    it. *)
Definition RecorderTimeSeries
    (get : W -> TimeSeries) (set : TimeSeries -> W -> W) : Recorder :=
  {| Record t X := fun w =>
       let data := {| time := t; state := X |} in
       Ret tt (set (get w ++ [data]) w) |}.

(* ---------------------------------------------------------------- *)
(** ** controller.go *)

(** [func StopAtTime(tmax float64) Controller] *)
Definition StopAtTime (tmax : F) : Controller :=
  fun t X =>
    let delta := fabs (fsub t tmax) in
    if fltb delta (flit (1 # 100000000)) || fleb t tmax
    then ret (false, None)
    else ret (true, None).

(** [func MultiController(controllers ...Controller) Controller]: the
    [range] loop with its two early returns. *)
Fixpoint MultiController (controllers : list Controller) : Controller :=
  fun t X =>
    match controllers with
    | [] => ret (false, None)
    | c :: rest =>
        do '(ok, err) <- c t X ;;
        match err with
        | Some e => ret (true, Some e)
        | None => if ok : bool then ret (true, None)
                  else MultiController rest t X
        end
    end.

(* ---------------------------------------------------------------- *)
(** ** solver.go: the step algorithms *)

(** [for i := 0; i < len(Xn); i++ { k[i] = h * slope[i] }] *)
Definition scale_loop (n : nat) (h : F) (slope k : list F) : M W (list F) :=
  for_upto n (fun i k => do s <- index slope i ;; store k i (fmul h s)) k.

(** [for i := 0; i < len(Xn); i++ { Xm[i] = Xn[i] + k[i]/2 }] *)
Definition half_loop (n : nat) (Xn k Xm : list F) : M W (list F) :=
  for_upto n (fun i Xm =>
    do x <- index Xn i ;; do ki <- index k i ;;
    store Xm i (fadd x (fdiv ki (flit 2)))) Xm.

(** [for i := 0; i < len(Xn); i++ { Xm[i] = Xn[i] + k3[i] }] *)
Definition full_loop (n : nat) (Xn k Xm : list F) : M W (list F) :=
  for_upto n (fun i Xm =>
    do x <- index Xn i ;; do ki <- index k i ;;
    store Xm i (fadd x ki)) Xm.

(** [for i := 0; i < len(Xn); i++
      { Xs[i] = Xn[i] + (k1[i]+2*k2[i]+2*k3[i]+k4[i])/6 }] *)
Definition average_loop (n : nat) (Xn k1 k2 k3 k4 Xs : list F)
  : M W (list F) :=
  for_upto n (fun i Xs =>
    do x <- index Xn i ;;
    do a <- index k1 i ;; do b <- index k2 i ;;
    do c <- index k3 i ;; do d <- index k4 i ;;
    store Xs i
      (fadd x
         (fdiv (fadd (fadd (fadd a (fmul (flit 2) b)) (fmul (flit 2) c)) d)
               (flit 6)))) Xs.

(** [func rk4Iteration(f Function, tn float64, Xn []float64, h float64)
    ([]float64, error)] *)
Definition rk4Iteration : Iteration :=
  fun f tn Xn h =>
    let n := length Xn in
    (* Step 1 *)
    do '(slope, err) <- f tn Xn ;;
    match err with Some e => ret ([], Some e) | None =>
    do k1 <- scale_loop n h slope (make n) ;;
    (* Step 2 *)
    do Xm <- half_loop n Xn k1 (make n) ;;
    do '(slope, err) <- f (fadd tn (fdiv h (flit 2))) Xm ;;
    match err with Some e => ret ([], Some e) | None =>
    do k2 <- scale_loop n h slope (make n) ;;
    (* Step 3 *)
    do Xm <- half_loop n Xn k2 Xm ;;
    do '(slope, err) <- f (fadd tn (fdiv h (flit 2))) Xm ;;
    match err with Some e => ret ([], Some e) | None =>
    do k3 <- scale_loop n h slope (make n) ;;
    (* Step 4 *)
    do Xm <- full_loop n Xn k3 Xm ;;
    do '(slope, err) <- f (fadd tn h) Xm ;;
    match err with Some e => ret ([], Some e) | None =>
    do k4 <- scale_loop n h slope (make n) ;;
    do Xs <- average_loop n Xn k1 k2 k3 k4 (make n) ;;
    ret (Xs, None)
    end end end end.

(** [for i := 0; i < len(Xn); i++ { Xs[i] = Xn[i] + h*slope[i] }] *)
Definition euler_loop (n : nat) (h : F) (Xn slope Xs : list F)
  : M W (list F) :=
  for_upto n (fun i Xs =>
    do x <- index Xn i ;; do s <- index slope i ;;
    store Xs i (fadd x (fmul h s))) Xs.

(** [for i := 0; i < len(Xn); i++ { Xm[i] = Xn[i] + h*slope[i]/2 }] *)
Definition midpoint_loop (n : nat) (h : F) (Xn slope Xm : list F)
  : M W (list F) :=
  for_upto n (fun i Xm =>
    do x <- index Xn i ;; do s <- index slope i ;;
    store Xm i (fadd x (fdiv (fmul h s) (flit 2)))) Xm.

(** [func eulerIteration(f Function, tn float64, Xn []float64, h float64)
    ([]float64, error)] *)
Definition eulerIteration : Iteration :=
  fun f tn Xn h =>
    let n := length Xn in
    let Xs := make n in
    do '(slope, err) <- f tn Xn ;;
    match err with Some e => ret ([], Some e) | None =>
    do Xs <- euler_loop n h Xn slope Xs ;;
    ret (Xs, None)
    end.

(** [func rk2Iteration(f Function, tn float64, Xn []float64, h float64)
    ([]float64, error)] *)
Definition rk2Iteration : Iteration :=
  fun f tn Xn h =>
    let n := length Xn in
    (* Step 1 *)
    let Xm := make n in
    do '(slope, err) <- f tn Xn ;;
    match err with Some e => ret ([], Some e) | None =>
    do Xm <- midpoint_loop n h Xn slope Xm ;;
    (* Step 2 *)
    let Xs := make n in
    do '(slope, err) <- f (fadd tn (fdiv h (flit 2))) Xm ;;
    match err with Some e => ret ([], Some e) | None =>
    do Xs <- euler_loop n h Xn slope Xs ;;
    ret (Xs, None)
    end end.

(** [func NewEulerSolver() Solver] *)
Definition NewEulerSolver : StandardSolver :=
  {| t := flit 0; X := []; iteration := eulerIteration |}.

(** [func NewRK2Solver() Solver] *)
Definition NewRK2Solver : StandardSolver :=
  {| t := flit 0; X := []; iteration := rk2Iteration |}.

(** [func NewRK4Solver() Solver]: the fields [t] and [X] hold their zero
    values. *)
Definition NewRK4Solver : StandardSolver :=
  {| t := flit 0; X := []; iteration := rk4Iteration |}.

(* ---------------------------------------------------------------- *)
(** ** solver.go: the solve loop *)

(** The body of [for { ... }] in [Solve], from the state [(tm, Xm,
    nbIterations)]; [fuel] bounds the number of passes the model follows.
    The value returned is the solver after the call and the pair
    [(nbIterations, err)]. *)
Fixpoint solve_loop (fuel : nat) (solver : StandardSolver) (f : Function)
    (h : F) (c : Controller) (r : Recorder)
    (tm : F) (Xm : list F) (nbIterations : N)
  : M W (StandardSolver * (N * option error)) :=
  match fuel with
  | O => out_of_fuel
  | S fuel' =>
      do '(Xn, err) <- iteration solver f tm Xm h ;;
      match err with
      | Some e => ret (solver, (nbIterations, Some e))
      | None =>
          let tn := fadd tm h in
          do _ <- Record r tn Xn ;;
          do '(stop, err) <- c tn Xn ;;
          match err with
          | Some e => ret (solver, (nbIterations, Some e))
          | None =>
              if stop : bool
              then ret ({| t := tm; X := Xm;
                           iteration := iteration solver |},
                        (nbIterations, None))
              else solve_loop fuel' solver f h c r tn Xn
                     (uint64_incr nbIterations)
          end
      end
  end.

(** [func (solver *StandardSolver) Solve(f, t0, X0, h, c, r) (uint64, error)].
    [f] and [r] may be [nil]. *)
Definition Solve (fuel : nat) (solver : StandardSolver)
    (f : option Function) (t0 : F) (X0 : list F) (h : F)
    (c : Controller) (r : option Recorder)
  : M W (StandardSolver * (N * option error)) :=
  match f with
  | None =>
      ret (solver, (0%N, Some "ERR: the function f is not defined"%string))
  | Some f =>
      let r := match r with None => RecorderNone | Some r => r end in
      let tm := t0 in
      let Xm := X0 in
      do _ <- Record r tm Xm ;;
      solve_loop fuel solver f h c r tm Xm 0%N
  end.

(** [func (solver *StandardSolver) Result() (t float64, X []float64)] *)
Definition Result (solver : StandardSolver) : F * list F :=
  (t solver, X solver).

End Solver.

Arguments Function : clear implicits.
Arguments Controller : clear implicits.
Arguments Recorder : clear implicits.
Arguments Iteration : clear implicits.
Arguments StandardSolver : clear implicits.
Arguments TimeData : clear implicits.

(** [type TimeSeries []TimeData] *)
Abbreviation TimeSeries F := (list (TimeData F)).

(* ------------------------------------------------------------------ *)
(** ** The time-series export ([ToCSV], [ToCSVwithNames]) *)

Section TimeSeriesExport.
Context {F : Type} `{Float64Ops F} {W : Type}.

(** The operating system and the formatting of numbers, as the code
    calls them. *)
Variable File : Type.
Variable os_Create : string -> M W (File * option error).
Variable file_WriteString : File -> string -> M W unit.
Variable file_Close : File -> M W unit.
Variable log_Printf : string -> M W unit.
Variable Sprintf_4f : F -> string.            (* "%.4f" *)
Variable Sprintf_12f : F -> string.           (* "%.12f" *)
Variable Sprintf_v : list string -> string.   (* "%v" *)

(** [func (series TimeSeries) ToCSVwithNames(filepath string,
    names []string) error] *)
Definition ToCSVwithNames (series : TimeSeries F)
    (filepath : string) (names : list string) : M W (option error) :=
  if decide (length series = 0)
  then ret (Some "the timeseries has no data"%string)
  else
    do first <- index series 0 ;;
    if decide (length names <> length (state first))
    then ret (Some ("the names (" +:+ Sprintf_v names +:+
                    ") does not match with the state dimension"))
    else
      do '(file, err) <- os_Create filepath ;;
      match err with
      | Some e => ret (Some e)
      | None =>
          do _ <- log_Printf
               ("Creating the data file " +:+ filepath +:+
                " containing the time series " +:+ Sprintf_v names) ;;
          do line <- for_upto (length names) (fun j line =>
               do name <- index names j ;;
               ret (line +:+ ";" +:+ name)) "t"%string ;;
          do _ <- file_WriteString file (line +:+ newline) ;;
          do _ <- for_upto (length series) (fun i _ =>
               do data <- index series i ;;
               do line <- for_upto (length (state data)) (fun j line =>
                    do x <- index (state data) j ;;
                    ret (line +:+ ";" +:+ Sprintf_12f x))
                    (Sprintf_4f (time data)) ;;
               file_WriteString file (line +:+ newline)) tt ;;
          do _ <- file_Close file ;;
          ret None
      end.

(** [func (series TimeSeries) ToCSV(filepath string) error] *)
Definition ToCSV (series : TimeSeries F) (filepath : string)
  : M W (option error) :=
  do first <- index series 0 ;;
  do names <- for_upto (length (state first)) (fun j names =>
       store names j ("x" +:+ pretty j))
       (replicate (length (state first)) ""%string) ;;
  ToCSVwithNames series filepath names.
End TimeSeriesExport.

(* ------------------------------------------------------------------ *)
(** ** Notions used to state the properties *)

Section Statements.
Context {F : Type} `{Float64Ops F} {W : Type}.

(** *** Vector arithmetic of the RK4 formulas *)

(** [a·V] *)
Definition vscale (a : F) (V : list F) : list F := fmul a <$> V.

(** [V/a] *)
Definition vdiv (V : list F) (a : F) : list F := (fun v => fdiv v a) <$> V.

(** [U + V] *)
Definition vadd (U V : list F) : list F := zip_with fadd U V.

(** [X_{n+1} = X_n + (k1 + 2·k2 + 2·k3 + k4)/6] *)
Definition rk4_next (Xn k1 k2 k3 k4 : list F) : list F :=
  vadd Xn
    (vdiv (vadd (vadd (vadd k1 (vscale (flit 2) k2)) (vscale (flit 2) k3)) k4)
          (flit 6)).

(** The four stages of one RK4 step succeed: [f] is called at the four
    points of the scheme, in this order, from memory [w0] to memory [w4],
    and returns the slopes [s1 .. s4] with a [nil] error. *)
Definition rk4_stages (f : Function F W) (tn : F) (Xn : list F) (h : F)
    (w0 : W) (s1 s2 s3 s4 : list F) (w4 : W) : Prop :=
  let k1 := vscale h s1 in
  let k2 := vscale h s2 in
  let k3 := vscale h s3 in
  let half := fdiv h (flit 2) in
  exists w1 w2 w3,
    f tn Xn w0 = Ret (s1, None) w1 /\
    f (fadd tn half) (vadd Xn (vdiv k1 (flit 2))) w1 = Ret (s2, None) w2 /\
    f (fadd tn half) (vadd Xn (vdiv k2 (flit 2))) w2 = Ret (s3, None) w3 /\
    f (fadd tn h) (vadd Xn k3) w3 = Ret (s4, None) w4 /\
    length Xn <= length s1 /\ length Xn <= length s2 /\
    length Xn <= length s3 /\ length Xn <= length s4.

(** [f] fails with error [e] at one of the four stages of an RK4 step
    started in memory [w0], the stages before it having succeeded; [w']
    is the memory the failing call leaves. *)
Inductive rk4_fails (f : Function F W) (tn : F) (Xn : list F) (h : F)
    (w0 : W) (e : error) (w' : W) : Prop :=
| rk4_fails_1 s :
    f tn Xn w0 = Ret (s, Some e) w' ->
    rk4_fails f tn Xn h w0 e w'
| rk4_fails_2 s1 w1 s :
    f tn Xn w0 = Ret (s1, None) w1 ->
    length Xn <= length s1 ->
    f (fadd tn (fdiv h (flit 2)))
      (vadd Xn (vdiv (vscale h s1) (flit 2))) w1 = Ret (s, Some e) w' ->
    rk4_fails f tn Xn h w0 e w'
| rk4_fails_3 s1 w1 s2 w2 s :
    f tn Xn w0 = Ret (s1, None) w1 ->
    length Xn <= length s1 ->
    f (fadd tn (fdiv h (flit 2)))
      (vadd Xn (vdiv (vscale h s1) (flit 2))) w1 = Ret (s2, None) w2 ->
    length Xn <= length s2 ->
    f (fadd tn (fdiv h (flit 2)))
      (vadd Xn (vdiv (vscale h s2) (flit 2))) w2 = Ret (s, Some e) w' ->
    rk4_fails f tn Xn h w0 e w'
| rk4_fails_4 s1 w1 s2 w2 s3 w3 s :
    f tn Xn w0 = Ret (s1, None) w1 ->
    length Xn <= length s1 ->
    f (fadd tn (fdiv h (flit 2)))
      (vadd Xn (vdiv (vscale h s1) (flit 2))) w1 = Ret (s2, None) w2 ->
    length Xn <= length s2 ->
    f (fadd tn (fdiv h (flit 2)))
      (vadd Xn (vdiv (vscale h s2) (flit 2))) w2 = Ret (s3, None) w3 ->
    length Xn <= length s3 ->
    f (fadd tn h) (vadd Xn (vscale h s3)) w3 = Ret (s, Some e) w' ->
    rk4_fails f tn Xn h w0 e w'.

(** [f] fails with error [e] at one of the two stages of an RK2 step. *)
Inductive rk2_fails (f : Function F W) (tn : F) (Xn : list F) (h : F)
    (w0 : W) (e : error) (w' : W) : Prop :=
| rk2_fails_1 s :
    f tn Xn w0 = Ret (s, Some e) w' ->
    rk2_fails f tn Xn h w0 e w'
| rk2_fails_2 s1 w1 s :
    f tn Xn w0 = Ret (s1, None) w1 ->
    length Xn <= length s1 ->
    f (fadd tn (fdiv h (flit 2)))
      (vadd Xn (vdiv (vscale h s1) (flit 2))) w1 = Ret (s, Some e) w' ->
    rk2_fails f tn Xn h w0 e w'.

(** The derivative function [f] returns the error [e] during the step
    that a solver of the package computes from [(tn, Xn)] in memory [w0];
    [w'] is the memory the failing call leaves.  The package builds its
    solvers with [NewEulerSolver], [NewRK2Solver] and [NewRK4Solver]
    only. *)
Inductive derivative_fails (solver : StandardSolver F W) (f : Function F W)
    (tn : F) (Xn : list F) (h : F) (w0 : W) (e : error) (w' : W) : Prop :=
| derivative_fails_euler s :
    iteration solver = eulerIteration ->
    f tn Xn w0 = Ret (s, Some e) w' ->
    derivative_fails solver f tn Xn h w0 e w'
| derivative_fails_rk2 :
    iteration solver = rk2Iteration ->
    rk2_fails f tn Xn h w0 e w' ->
    derivative_fails solver f tn Xn h w0 e w'
| derivative_fails_rk4 :
    iteration solver = rk4Iteration ->
    rk4_fails f tn Xn h w0 e w' ->
    derivative_fails solver f tn Xn h w0 e w'.

(** *** Runs of the solve loop *)

(** [nil] recorder: [Solve] substitutes [RecorderNone]. *)
Definition recorder_or_none (r : option (Recorder F W)) : Recorder F W :=
  match r with None => RecorderNone | Some r => r end.

(** A computation leaves the part [get] of the memory as it found it,
    however it ends. *)
Definition preserves {A V} (get : W -> V) (m : M W A) : Prop :=
  forall w, get (world_of (m w)) = get w.

Section Passes.
Variable solver : StandardSolver F W.
Variable f : Function F W.
Variable h : F.
Variable c : Controller F W.
Variable r : Recorder F W.

(** [commits (tm, Xm, w) l (tk, Xk, wk)]: from the current state
    [(tm, Xm)] in memory [w], the loop makes [length l] passes that
    each compute a step, record it, get [(false, nil)] from the
    controller and commit; [l] lists the samples committed, in order,
    and [(tk, Xk)] in memory [wk] is the state reached. *)
Inductive commits :
  F * list F * W -> list (TimeData F) -> F * list F * W -> Prop :=
| commits_nil s : commits s [] s
| commits_cons tm Xm w Xn w1 w2 w3 l s' :
    iteration solver f tm Xm h w = Ret (Xn, None) w1 ->
    Record r (fadd tm h) Xn w1 = Ret tt w2 ->
    c (fadd tm h) Xn w2 = Ret (false, None) w3 ->
    commits (fadd tm h, Xn, w3) l s' ->
    commits (tm, Xm, w) ({| time := fadd tm h; state := Xn |} :: l) s'.

(** The pass on which the loop returns, from the state [(tm, Xm)] in
    memory [w]: the error returned and the memory left. *)
Inductive last_pass (tm : F) (Xm : list F) (w : W) :
  option error -> W -> Prop :=
| last_pass_stop Xn w1 w2 w' :
    iteration solver f tm Xm h w = Ret (Xn, None) w1 ->
    Record r (fadd tm h) Xn w1 = Ret tt w2 ->
    c (fadd tm h) Xn w2 = Ret (true, None) w' ->
    last_pass tm Xm w None w'
| last_pass_step_error Xn e w' :
    iteration solver f tm Xm h w = Ret (Xn, Some e) w' ->
    last_pass tm Xm w (Some e) w'
| last_pass_control_error Xn w1 w2 stop e w' :
    iteration solver f tm Xm h w = Ret (Xn, None) w1 ->
    Record r (fadd tm h) Xn w1 = Ret tt w2 ->
    c (fadd tm h) Xn w2 = Ret (stop, Some e) w' ->
    last_pass tm Xm w (Some e) w'.

(** The solver after a run that ends in state [(tk, Xk)] with error
    [err]: lines 80-81 of [Solve] are reached on a [nil] error only. *)
Definition solver_after (tk : F) (Xk : list F) (err : option error)
  : StandardSolver F W :=
  match err with
  | None => {| t := tk; X := Xk; iteration := iteration solver |}
  | Some _ => solver
  end.
End Passes.

(** *** Aggregated controllers *)

(** The controllers of [cs], called in order at [(t, X)] from memory [w],
    all return [(false, nil)]; [w'] is the memory after the last of
    them. *)
Inductive all_continue (t : F) (X : list F) :
  list (Controller F W) -> W -> W -> Prop :=
| all_continue_nil w : all_continue t X [] w w
| all_continue_cons c cs w w1 w2 :
    c t X w = Ret (false, None) w1 ->
    all_continue t X cs w1 w2 ->
    all_continue t X (c :: cs) w w2.

(** [nbIterations] after [k] increments from 0. *)
Definition count_after (k : nat) : N := (N.of_nat k mod 2 ^ 64)%N.

End Statements.

(** *** The order of the calls to the recorder and to the controller *)

(** A call of [Record] or of the controller, with its arguments. *)
Inductive event (F : Type) : Type :=
| EvRecord (t : F) (X : list F)
| EvControl (t : F) (X : list F).
Arguments EvRecord {F} t X.
Arguments EvControl {F} t X.

Section Tracing.
Context {F : Type} `{Float64Ops F} {W : Type}.

(** A journal of calls kept in the memory. *)
Variable journal : W -> list (event F).
Variable set_journal : list (event F) -> W -> W.

Definition tell (ev : event F) : M W unit :=
  fun w => Ret tt (set_journal (journal w ++ [ev]) w).

(** The recorder [r], noting each call when it is entered. *)
Definition traced_recorder (r : Recorder F W) : Recorder F W :=
  {| Record t X := do _ <- tell (EvRecord t X) ;; Record r t X |}.

(** The controller [c], noting each call when it is entered. *)
Definition traced_controller (c : Controller F W) : Controller F W :=
  fun t X => do _ <- tell (EvControl t X) ;; c t X.
End Tracing.

(** *** The order of a recorded series *)


(** *** The times of a run, in the arithmetic of the numbers *)

Section RunTimes.
Context {F : Type} `{Float64Ops F}.

(** The time of the sample of index [i] of a run from [t0] with step [h]:
    [t0] with [h] added [i] times, each addition made as [Solve] makes it
    ([tn := tm + h]). *)
Definition sample_time (t0 h : F) (i : nat) : F :=
  Nat.iter i (fun tm => fadd tm h) t0.

(** The samples of [series] have the times of a run from [t0] with step
    [h], in order. *)
Definition times_from (t0 h : F) (series : TimeSeries F) : Prop :=
  forall i d, series !! i = Some d -> time d = sample_time t0 h i.

(** The test by which [StopAtTime(tmax)] lets a run go on at time [t]:
    [delta < 1e-8 || t <= tmax], with [delta] the number computed for
    [|t - tmax|]. *)
Definition within_limit (tmax t : F) : bool :=
  fltb (fabs (fsub t tmax)) (flit (1 # 100000000)) || fleb t tmax.
End RunTimes.

(** *** The value of a binary64 number *)

(** The rational number that a finite binary64 number is; infinities and
    NaN have none. *)
Definition float64_value (x : float) : option Q :=
  match Prim2SF x with
  | S754_zero _ => Some 0%Q
  | S754_finite s m e =>
      Some ((if s then -1 else 1) * inject_Z (Zpos m) * 2 ^ e)%Q
  | S754_infinity _ | S754_nan => None
  end.


(** [x] is not a number. *)
Definition float64_is_NaN (x : float) : Prop := Prim2SF x = S754_nan.



(** A journal shows a second sample, recorded at [t0 + h]. *)
Definition second_sample_recorded (t0 h : Q) (journal : list (event Q))
  : Prop :=
  exists X0 X1 rest,
    journal = EvRecord t0 X0 :: EvRecord (t0 + h)%Q X1 :: rest.

(** *** Concrete runs, used to exercise the statements *)

(** A memory that holds the series of one accumulating recorder. *)
Definition demo_world : Type := TimeSeries Q.

Definition demo_recorder : Recorder Q demo_world :=
  RecorderTimeSeries (fun w => w) (fun ts _ => ts).

(** A memory that holds a journal of calls. *)
Definition journal_world : Type := list (event Q).

(** A memory that holds the names of the controllers called. *)
Definition calls : Type := list string.

(** The same, for binary64 samples. *)
Definition demo_world64 : Type := TimeSeries float.

Definition demo_recorder64 : Recorder float demo_world64 :=
  RecorderTimeSeries (fun w => w) (fun ts _ => ts).

(** [dx/dt = 1], in any arithmetic *)
Definition unit_rate {F : Type} `{Float64Ops F} {W : Type} : Function F W :=
  fun _ _ => ret ([flit 1], None).

(** [dx/dt = 1] *)
Definition unit_slope {W : Type} : Function Q W :=
  fun _ _ => ret ([1%Q], None).

(** [dx/dt = 1], defined up to [t = 1] only *)
Definition bounded_slope {W : Type} : Function Q W :=
  fun t _ =>
    if Qle_bool t 1 then ret ([1%Q], None)
    else ret ([], Some "t is out of the domain"%string).

(** [dx/dt = x] *)
Definition growth {W : Type} : Function Q W :=
  fun _ X => ret (X, None).

(** The controller that stops at once. *)
Definition StopNow {W : Type} : Controller Q W :=
  fun _ _ => ret (true, None).

(** Three controllers that sign their call. *)
Definition NeverStop (name : string) : Controller Q calls :=
  fun _ _ w => Ret (false, None) (w ++ [name]).

Definition AlwaysStop (name : string) : Controller Q calls :=
  fun _ _ w => Ret (true, None) (w ++ [name]).

Definition ErrorController (name : string) : Controller Q calls :=
  fun _ _ w => Ret (false, Some "diverged"%string) (w ++ [name]).

(** A solver that holds the result of an earlier run. *)
Definition used_solver : StandardSolver Q demo_world :=
  {| t := 5%Q; X := [9%Q]; iteration := rk4Iteration |}.

(* ------------------------------------------------------------------ *)
(** ** The time series: construction, copy and reset *)

Section TimeSeriesOps.
Context {F : Type} `{Float64Ops F} {W : Type}.

(** [func NewTimeData(t float64, X []float64) TimeData] *)
Definition NewTimeData (t : F) (X : list F) : TimeData F :=
  {| time := t; state := X |}.

(** [func (data TimeData) GetTime() float64] *)
Definition GetTime (data : TimeData F) : F := time data.

(** [func (data TimeData) GetState() []float64] *)
Definition GetState (data : TimeData F) : list F := state data.

(** [func (data TimeData) Clone() TimeData] *)
Definition TimeData_Clone (data : TimeData F) : M W (TimeData F) :=
  let n := length (state data) in
  do state' <- for_upto n (fun i state' =>
       do x <- index (state data) i ;; store state' i x) (make n) ;;
  ret (NewTimeData (time data) state').

(** [func (series *TimeSeries) Append(data TimeData)]: the series after
    the call. *)
Definition Append (series : TimeSeries F) (data : TimeData F)
  : TimeSeries F :=
  series ++ [data].

(** [func (series *TimeSeries) Clear()]: the series after the call. *)
Definition Clear (series : TimeSeries F) : TimeSeries F := [].

(** [func (series TimeSeries) Clone() TimeSeries]; [make(TimeSeries, n)]
    holds [n] zero values of [TimeData]. *)
Definition TimeSeries_Clone (series : TimeSeries F) : M W (TimeSeries F) :=
  let n := length series in
  for_upto n (fun i clone =>
    do data <- index series i ;;
    do copy <- TimeData_Clone data ;;
    store clone i copy)
    (replicate n {| time := flit 0; state := [] |}).
End TimeSeriesOps.

(** The lines of the file that [ToCSVwithNames] writes. *)
Section CSVLines.
Context {F : Type}.
Variable Sprintf_4f : F -> string.
Variable Sprintf_12f : F -> string.

(** The header: ["t;names[0];names[1]; ..."] and a newline. *)
Definition csv_header (names : list string) : string :=
  foldl (fun line name => line +:+ ";" +:+ name) "t"%string names
  +:+ newline.

(** The line of a sample: the time with 4 decimals, the components of the
    state with 12, separated by semicolons, and a newline. *)
Definition csv_row (data : TimeData F) : string :=
  foldl (fun line x => line +:+ ";" +:+ Sprintf_12f x)
        (Sprintf_4f (time data)) (state data)
  +:+ newline.

(** The names that [ToCSV] gives to the [n] columns of the state. *)
Definition default_names (n : nat) : list string :=
  (fun j => "x" +:+ pretty j) <$> seq 0 n.
End CSVLines.

(* ------------------------------------------------------------------ *)
(** ** Package system: the systems *)

(** [type System interface { F(t, X) ([]float64, error);
    GetDefaultInput() (t0, X0, step, tmax) }] *)
Record System (F W : Type) : Type := {
  System_F : Function F W;
  System_GetDefaultInput : F * list F * F * F
}.
Arguments System_F {F W} _.
Arguments System_GetDefaultInput {F W} _.

(** watertank.go: a tank filled by a constant flow [d] and emptied at the
    rate [a*h]. *)
Module WaterTankSystem.
Section Defs.
Context {R : Type} `{Float64Ops R} {W : Type}.

(** [type WaterTankSystem struct { d, a float64 }] *)
Record t : Type := { d : R; a : R }.

(** [func (system WaterTankSystem) F(t float64, X []float64)
    ([]float64, error)] *)
Definition F (system : t) : Function R W :=
  fun _ X =>
    do h <- index X 0 ;;
    let dhdt := fsub (d system) (fmul (a system) h) in
    ret ([dhdt], None).

(** [func (system WaterTankSystem) GetDefaultInput()
    (t0, X0, step, tmax)] *)
Definition GetDefaultInput (system : t) : R * list R * R * R :=
  let t0 := flit 0 in
  let h0 := fadd (flit 1) (fdiv (d system) (a system)) in
  let X0 := [h0] in
  let T := fdiv (flit 1) (a system) in
  let step := fdiv T (flit 40) in
  let tmax := fmul (flit 8) T in
  (t0, X0, step, tmax).

(** A [WaterTankSystem] as a [System]. *)
Definition as_System (system : t) : System R W :=
  {| System_F := F system; System_GetDefaultInput := GetDefaultInput system |}.
End Defs.
Arguments t : clear implicits.
End WaterTankSystem.

(** watertank.go: a cascade of tanks, each filled by the one before. *)
Module CascadingWaterTankSystem.
Section Defs.
Context {R : Type} `{Float64Ops R} {W : Type}.

(** [type CascadingWaterTankSystem struct { d, a float64; n int }] *)
Record t : Type := { d : R; a : R; n : Z }.

(** [func (system CascadingWaterTankSystem) F(t float64, X []float64)
    ([]float64, error)] *)
Definition F (system : t) : Function R W :=
  fun _ X =>
    let dXdt := make (length X) in
    do x0 <- index X 0 ;;
    do dXdt <- store dXdt 0 (fsub (d system) (fmul (a system) x0)) ;;
    (* for i := 1; i < len(X); i++ *)
    do dXdt <- for_range (length X - 1) 1 (fun i dXdt =>
         do xp <- index X (i - 1) ;; do xi <- index X i ;;
         store dXdt i (fmul (a system) (fsub xp xi))) dXdt ;;
    ret (dXdt, None).

(** [func NewConstantX(n int, h float64) []float64]; [make] panics on a
    negative length. *)
Definition NewConstantX (n : Z) (h : R) : M W (list R) :=
  if decide (n < 0)%Z then panic
  else for_upto (Z.to_nat n) (fun i X => store X i h) (make (Z.to_nat n)).
End Defs.
Arguments t : clear implicits.
End CascadingWaterTankSystem.

(** volterra.go: preys and predators. *)
Module VolterraSystem.
Section Defs.
Context {R : Type} `{Float64Ops R} {W : Type}.

(** [type VolterraSystem struct { a, b, d, g float64 }] *)
Record t : Type := { a : R; b : R; d : R; g : R }.

(** [func (system VolterraSystem) F(t float64, X []float64)
    ([]float64, error)] *)
Definition F (system : t) : Function R W :=
  fun _ X =>
    do x <- index X 0 ;;
    do y <- index X 1 ;;
    let dxdt := fmul x (fsub (a system) (fmul (b system) y)) in
    let dydt := fmul y (fsub (fmul (d system) x) (g system)) in
    ret ([dxdt; dydt], None).
End Defs.
Arguments t : clear implicits.
End VolterraSystem.

(** system.go: the solver of a [System], with its predefined setup. *)
Module SystemSolver.
Section Defs.
Context {R : Type} `{Float64Ops R} {W : Type}.

(** The operating system, as the code calls it. *)
Variable File : Type.
Variable os_Create : string -> M W (File * option error).
Variable file_WriteString : File -> string -> M W unit.
Variable file_Close : File -> M W unit.
Variable log_Printf : string -> M W unit.
Variable Sprintf_4f : R -> string.
Variable Sprintf_12f : R -> string.
Variable Sprintf_v : list string -> string.

(** [type SystemSolver struct { system System; solver solver.Solver;
    recorder solver.RecorderTimeSeries }].  The methods reach the field
    [recorder] through the receiver: [recorder_get] reads its [Series] in
    the memory, [recorder_set] writes it. *)
Record t : Type := {
  system : System R W;
  solver : StandardSolver R W;
  recorder_get : W -> TimeSeries R;
  recorder_set : TimeSeries R -> W -> W
}.

(** [func NewSystemSolver(system System) SystemSolver]: the struct is
    placed where [get] and [set] point, with the zero value of
    [recorder] (a [nil] series). *)
Definition NewSystemSolver (get : W -> TimeSeries R)
    (set : TimeSeries R -> W -> W) (system : System R W) : M W t :=
  fun w =>
    Ret {| system := system; solver := NewRK4Solver;
           recorder_get := get; recorder_set := set |}
        (set [] w).

(** [func (s *SystemSolver) Solve(t0 float64, X0 []float64,
    h, tmax float64) error]; the value returned is the receiver after the
    call and the error. *)
Definition Solve (fuel : nat) (s : t) (t0 : R) (X0 : list R) (h tmax : R)
  : M W (t * option error) :=
  let controller := StopAtTime tmax in
  do '(solver', (n, err)) <-
    Solve fuel (solver s) (Some (System_F (system s))) t0 X0 h controller
      (Some (RecorderTimeSeries (recorder_get s) (recorder_set s))) ;;
  do _ <- log_Printf
       ("DBG: number of iterations: " +:+ pretty n +:+ newline) ;;
  ret ({| system := system s; solver := solver';
          recorder_get := recorder_get s;
          recorder_set := recorder_set s |}, err).

(** [func (s SystemSolver) Series() *solver.TimeSeries]: the series the
    pointer gives access to. *)
Definition Series (s : t) : M W (TimeSeries R) :=
  fun w => Ret (recorder_get s w) w.

(** [func (s SystemSolver) SaveTimeseries(csvpath string,
    names []string) error] *)
Definition SaveTimeseries (s : t) (csvpath : string) (names : list string)
  : M W (option error) :=
  do series <- Series s ;;
  ToCSVwithNames File os_Create file_WriteString file_Close log_Printf
    Sprintf_4f Sprintf_12f Sprintf_v series csvpath names.
End Defs.
Arguments t : clear implicits.
End SystemSolver.

(* ------------------------------------------------------------------ *)
(** ** The command of the demonstrations *)

Module main.
Section Defs.
Context {W : Type}.

(** [type demofunc func(postpro bool) error] *)
Definition demofunc : Type := bool -> M W (option error).

(** [type demodef struct { label string; function demofunc;
    comment string }] *)
Record demodef : Type := {
  label : string;
  function : demofunc;
  comment : string
}.

(** The demonstrations of package [system]. *)
Variable DemoSpring01 DemoSpring02 DemoSpring03 : demofunc.
Variable DemoLorenz DemoLaser DemoLaserFirstReturnMap : demofunc.
Variable DemoWaterTank DemoCascadingWaterTank DemoVolterra : demofunc.

(** [var demolist = []demodef{ ... }] *)
Definition demolist : list demodef := [
  {| label := "spring01"; function := DemoSpring01;
     comment := "damped spring simulation with basic implementation" |};
  {| label := "spring02"; function := DemoSpring02;
     comment := "damped spring simulation with structured implementation" |};
  {| label := "spring03"; function := DemoSpring03;
     comment :=
       "damped spring simulation with comparrison to analytical solution" |};
  {| label := "lorenz"; function := DemoLorenz;
     comment := "demonstration of the Lorenz chaotic attractor" |};
  {| label := "laser01"; function := DemoLaser;
     comment := "demonstration of a chaotic laser dynamics" |};
  {| label := "laser02"; function := DemoLaserFirstReturnMap;
     comment := "Poincar√© map of a chaotic laser dynamics" |};
  {| label := "watertank"; function := DemoWaterTank;
     comment := "water tank fill in/out" |};
  {| label := "cwatertank"; function := DemoCascadingWaterTank;
     comment := "cascading water tank fill in/out" |};
  {| label := "volterra"; function := DemoVolterra;
     comment := "model of preys/predators populations" |}
]%string.

(** [for index := range demolist { ... }] of [getDemoFunc], from the
    index [i] on, for [n] passes; [label'] is the label asked for. *)
Fixpoint getDemoFunc_loop (n i : nat) (label' : string)
  : M W (option demofunc * option error) :=
  match n with
  | O =>
      ret (None, Some ("ERR: The demo " +:+ label' +:+ " does not exist"))
  | S n' =>
      do demo <- index demolist i ;;
      if decide (label demo = label')
      then ret (Some (function demo), None)
      else getDemoFunc_loop n' (S i) label'
  end.

(** [func getDemoFunc(label string) (demofunc, error)] *)
Definition getDemoFunc (label' : string)
  : M W (option demofunc * option error) :=
  getDemoFunc_loop (length demolist) 0 label'.
End Defs.
End main.

(* ------------------------------------------------------------------ *)
(** ** Notions used to state the properties of the systems *)

(** A logger that keeps nothing. *)
Definition quiet_log {W : Type} : string -> M W unit := fun _ => ret tt.

(** A tank filled at the rate [d] and emptied at the rate [1·h], in
    binary64; [DemoWaterTank] has [d = 2]. *)
Definition unit_drain_tank (d : float) : WaterTankSystem.t float :=
  {| WaterTankSystem.d := d; WaterTankSystem.a := flit 1 |}.

(** *** Concrete runs, used to exercise the statements *)

(** [dx/dt = x], as a system. *)
Definition growth_system {W : Type} : System Q W :=
  {| System_F := growth; System_GetDefaultInput := (0, [1], 1, 1)%Q |}.

(** A controller that reports a divergence without asking to stop. *)
Definition GiveUp {W : Type} : Controller Q W :=
  fun _ _ => ret (false, Some "diverged"%string).

(** A printing function that prints nothing. *)
Definition silent_Printf {W : Type} : string -> list Q -> M W unit :=
  fun _ _ => ret tt.

(** A file system of one file, kept in the memory as the list of the
    lines written. *)
Definition paper : Type := list string.

Definition paper_Create : string -> M paper (unit * option error) :=
  fun _ => ret (tt, None).

Definition paper_WriteString : unit -> string -> M paper unit :=
  fun _ line w => Ret tt (w ++ [line]).

Definition paper_Close : unit -> M paper unit := fun _ => ret tt.

(** A file system that refuses to create files. *)
Definition locked_Create {W : Type} : string -> M W (unit * option error) :=
  fun _ => ret (tt, Some "permission denied"%string).

Definition idle_WriteString {W : Type} : unit -> string -> M W unit :=
  fun _ _ => ret tt.

Definition idle_Close {W : Type} : unit -> M W unit := fun _ => ret tt.

(** Formatting functions for whole numbers. *)
Definition show_Q (x : Q) : string := pretty (Qnum x).

Definition show_names (names : list string) : string :=
  foldr (fun name s => name +:+ " " +:+ s) EmptyString names.

(** A demonstration that only reports its name. *)
Definition demo_stub {W : Type} (name : string) : main.demofunc (W := W) :=
  fun _ => ret (Some name).

(* ------------------------------------------------------------------ *)
(** ** The monad and the index loops *)

Section LoopFacts.
Context {W : Type}.

Lemma bind_Ret {A B} (m : M W A) (k : A -> M W B) w a w' :
  m w = Ret a w' -> bind m k w = k a w'.
Proof. unfold bind. intros ->. reflexivity. Qed.

Lemma index_Some {A} (l : list A) i x (w : W) :
  l !! i = Some x -> index l i w = Ret x w.
Proof. unfold index. intros ->. reflexivity. Qed.

Lemma store_lt {A} (l : list A) i v (w : W) :
  i < length l -> store l i v w = Ret (<[i := v]> l) w.
Proof. unfold store. intros Hi. rewrite decide_True by done. reflexivity. Qed.

(** A loop whose pass [i] writes [v i] into cell [i] fills the cells
    [i .. i + m - 1] and leaves the memory alone. *)
Lemma for_range_fill {A} (v : nat -> A) (body : nat -> list A -> M W (list A))
    (n : nat) :
  (forall i (k : list A) w, i < n -> length k = n ->
      body i k w = Ret (<[i := v i]> k) w) ->
  forall m i (k : list A) w, i + m = n -> length k = n ->
    for_range m i body k w = Ret (take i k ++ (v <$> seq i m)) w.
Proof.
  intros Hbody. induction m as [|m IH]; intros i k w Hi Hk; simpl.
  - rewrite app_nil_r, take_ge by lia. reflexivity.
  - erewrite bind_Ret by (apply Hbody; lia).
    rewrite IH by (rewrite ?length_insert; lia).
    f_equal.
    assert (Hlt : i < length k) by lia.
    destruct (lookup_lt_is_Some_2 k i Hlt) as [x Hx].
    rewrite (take_S_r (<[i:=v i]> k) i (v i))
      by (apply list_lookup_insert_eq; lia).
    rewrite take_insert_ge by lia.
    rewrite <- app_assoc. reflexivity.
Qed.

Lemma for_upto_fill {A} (v : nat -> A) (body : nat -> list A -> M W (list A))
    (n : nat) (k : list A) w :
  (forall i (k : list A) w, i < n -> length k = n ->
      body i k w = Ret (<[i := v i]> k) w) ->
  length k = n ->
  for_upto n body k w = Ret (v <$> seq 0 n) w.
Proof.
  intros Hbody Hk. unfold for_upto.
  rewrite (for_range_fill v body n Hbody) by lia.
  rewrite take_0. reflexivity.
Qed.
End LoopFacts.

(* ------------------------------------------------------------------ *)
(** ** The RK4 iteration *)

Section RK4Facts.
Context {F : Type} `{Float64Ops F} {W : Type}.

Lemma length_make n : length (make n) = n.
Proof. apply length_replicate. Qed.

Lemma length_vscale a (V : list F) : length (vscale a V) = length V.
Proof. apply length_fmap. Qed.

Lemma vadd_take_r (U V : list F) :
  vadd U (take (length U) V) = vadd U V.
Proof. apply zip_with_take_r. Qed.

(** The loop [k[i] = h * slope[i]]. *)
Lemma scale_loop_spec n h (slope k : list F) (w : W) :
  n <= length slope -> length k = n ->
  scale_loop n h slope k w = Ret (take n (vscale h slope)) w.
Proof.
  intros Hs Hk. unfold scale_loop.
  rewrite (for_upto_fill
    (fun i => match slope !! i with Some s => fmul h s | None => flit 0 end));
    [ | | done ].
  - f_equal. apply list_eq; intros i. unfold vscale.
    rewrite list_lookup_fmap.
    destruct (decide (i < n)) as [Hi|Hi].
    + rewrite lookup_seq_lt, lookup_take_lt, list_lookup_fmap by lia. simpl.
      destruct (lookup_lt_is_Some_2 slope i ltac:(lia)) as [s ->].
      reflexivity.
    + rewrite lookup_seq_ge, lookup_take_ge by lia. reflexivity.
  - intros i k' w' Hi Hk'.
    destruct (lookup_lt_is_Some_2 slope i ltac:(lia)) as [s Hsl].
    rewrite Hsl. erewrite bind_Ret by (apply index_Some; eassumption).
    apply store_lt. lia.
Qed.

(** A loop [Xm[i] = g(Xn[i], k[i])]. *)
Lemma zip_loop_spec (g : F -> F -> F) Xn (k Xm : list F) (w : W) :
  length Xn <= length k -> length Xm = length Xn ->
  for_upto (length Xn) (fun i Xm =>
    do x <- index Xn i ;; do ki <- index k i ;; store Xm i (g x ki)) Xm w
  = Ret (zip_with g Xn k) w.
Proof.
  intros Hk HXm.
  rewrite (for_upto_fill
    (fun i => match Xn !! i, k !! i with
              | Some x, Some ki => g x ki
              | _, _ => flit 0
              end)); [ | | done ].
  - f_equal. apply list_eq; intros i.
    rewrite list_lookup_fmap, lookup_zip_with.
    destruct (decide (i < length Xn)) as [Hi|Hi].
    + rewrite lookup_seq_lt by lia. simpl.
      destruct (lookup_lt_is_Some_2 Xn i ltac:(lia)) as [x ->].
      destruct (lookup_lt_is_Some_2 k i ltac:(lia)) as [ki ->].
      reflexivity.
    + rewrite lookup_seq_ge by lia.
      rewrite (lookup_ge_None_2 Xn) by lia. reflexivity.
  - intros i Xm' w' Hi HXm'.
    destruct (lookup_lt_is_Some_2 Xn i ltac:(lia)) as [x Hx].
    destruct (lookup_lt_is_Some_2 k i ltac:(lia)) as [ki Hki].
    rewrite Hx, Hki.
    erewrite bind_Ret by (apply index_Some; eassumption).
    erewrite bind_Ret by (apply index_Some; eassumption).
    apply store_lt. lia.
Qed.

(** The loop [Xm[i] = Xn[i] + k[i]/2]. *)
Lemma half_loop_spec Xn (k Xm : list F) (w : W) :
  length Xn <= length k -> length Xm = length Xn ->
  half_loop (length Xn) Xn k Xm w = Ret (vadd Xn (vdiv k (flit 2))) w.
Proof.
  intros Hk HXm. unfold half_loop.
  rewrite (zip_loop_spec (fun x ki => fadd x (fdiv ki (flit 2)))) by done.
  f_equal. unfold vadd, vdiv. apply list_eq; intros i.
  rewrite !lookup_zip_with, list_lookup_fmap.
  destruct (Xn !! i), (k !! i); reflexivity.
Qed.

(** The loop [Xm[i] = Xn[i] + k3[i]]. *)
Lemma full_loop_spec Xn (k Xm : list F) (w : W) :
  length Xn <= length k -> length Xm = length Xn ->
  full_loop (length Xn) Xn k Xm w = Ret (vadd Xn k) w.
Proof.
  intros Hk HXm. unfold full_loop.
  apply (zip_loop_spec fadd); done.
Qed.

(** The loop [Xs[i] = Xn[i] + (k1[i]+2*k2[i]+2*k3[i]+k4[i])/6]. *)
Lemma average_loop_spec Xn (k1 k2 k3 k4 Xs : list F) (w : W) :
  length Xn <= length k1 -> length Xn <= length k2 ->
  length Xn <= length k3 -> length Xn <= length k4 ->
  length Xs = length Xn ->
  average_loop (length Xn) Xn k1 k2 k3 k4 Xs w
  = Ret (rk4_next Xn k1 k2 k3 k4) w.
Proof.
  intros H1 H2 H3 H4 HXs. unfold average_loop.
  rewrite (for_upto_fill
    (fun i => match Xn !! i, k1 !! i, k2 !! i, k3 !! i, k4 !! i with
              | Some x, Some a, Some b, Some c, Some d =>
                  fadd x (fdiv (fadd (fadd (fadd a (fmul (flit 2) b))
                                           (fmul (flit 2) c)) d) (flit 6))
              | _, _, _, _, _ => flit 0
              end)); [ | | done ].
  - f_equal. apply list_eq; intros i.
    unfold rk4_next, vadd, vdiv, vscale.
    rewrite list_lookup_fmap.
    rewrite !lookup_zip_with, !list_lookup_fmap, !lookup_zip_with,
      !list_lookup_fmap.
    destruct (decide (i < length Xn)) as [Hi|Hi].
    + rewrite lookup_seq_lt by lia. simpl.
      destruct (lookup_lt_is_Some_2 Xn i ltac:(lia)) as [x ->].
      destruct (lookup_lt_is_Some_2 k1 i ltac:(lia)) as [a ->].
      destruct (lookup_lt_is_Some_2 k2 i ltac:(lia)) as [b ->].
      destruct (lookup_lt_is_Some_2 k3 i ltac:(lia)) as [c ->].
      destruct (lookup_lt_is_Some_2 k4 i ltac:(lia)) as [d ->].
      reflexivity.
    + rewrite lookup_seq_ge by lia.
      rewrite (lookup_ge_None_2 Xn) by lia. reflexivity.
  - intros i Xs' w' Hi HXs'.
    destruct (lookup_lt_is_Some_2 Xn i ltac:(lia)) as [x Hx].
    destruct (lookup_lt_is_Some_2 k1 i ltac:(lia)) as [a Ha].
    destruct (lookup_lt_is_Some_2 k2 i ltac:(lia)) as [b Hb].
    destruct (lookup_lt_is_Some_2 k3 i ltac:(lia)) as [c Hc].
    destruct (lookup_lt_is_Some_2 k4 i ltac:(lia)) as [d Hd].
    rewrite Hx, Ha, Hb, Hc, Hd.
    do 5 (erewrite bind_Ret by (apply index_Some; eassumption)).
    apply store_lt. lia.
Qed.

(** The slices of length [len(Xn)] the code computes with give the same
    [X_{n+1}] as the whole slopes. *)
Lemma rk4_next_take Xn (k1 k2 k3 k4 : list F) :
  let n := length Xn in
  rk4_next Xn (take n k1) (take n k2) (take n k3) (take n k4)
  = rk4_next Xn k1 k2 k3 k4.
Proof.
  intros n. unfold rk4_next, vadd, vdiv, vscale.
  rewrite !fmap_take, <- !zip_with_take, fmap_take.
  apply zip_with_take_r.
Qed.

Lemma half_point_take Xn (k : list F) :
  vadd Xn (vdiv (take (length Xn) k) (flit 2)) = vadd Xn (vdiv k (flit 2)).
Proof.
  unfold vadd, vdiv. rewrite fmap_take. apply zip_with_take_r.
Qed.
End RK4Facts.

Section RK4Correct.
Context {F : Type} `{Float64Ops F} {W : Type}.

Lemma length_half_point Xn (k : list F) :
  length Xn <= length k ->
  length (vadd Xn (vdiv k (flit 2))) = length Xn.
Proof.
  intros Hk. unfold vadd, vdiv.
  rewrite length_zip_with, length_fmap. lia.
Qed.

Lemma length_take_vscale n h (s : list F) :
  n <= length s -> length (take n (vscale h s)) = n.
Proof. intros Hs. rewrite length_take, length_vscale. lia. Qed.

Lemma rk4Iteration_ok (f : Function F W) tn Xn h w0 s1 s2 s3 s4 w4 :
  rk4_stages f tn Xn h w0 s1 s2 s3 s4 w4 ->
  rk4Iteration f tn Xn h w0
  = Ret (rk4_next Xn (vscale h s1) (vscale h s2) (vscale h s3) (vscale h s4),
         None) w4.
Proof.
  intros (w1 & w2 & w3 & Hf1 & Hf2 & Hf3 & Hf4 & L1 & L2 & L3 & L4).
  unfold rk4Iteration.
  erewrite bind_Ret by exact Hf1. cbv beta iota.
  erewrite bind_Ret by (apply scale_loop_spec; [done | apply length_make]).
  erewrite bind_Ret
    by (apply half_loop_spec;
        [rewrite length_take_vscale by done; lia | apply length_make]).
  rewrite half_point_take.
  erewrite bind_Ret by exact Hf2. cbv beta iota.
  erewrite bind_Ret by (apply scale_loop_spec; [done | apply length_make]).
  erewrite bind_Ret
    by (apply half_loop_spec;
        [rewrite length_take_vscale by done; lia
        | apply length_half_point; rewrite length_vscale; done]).
  rewrite half_point_take.
  erewrite bind_Ret by exact Hf3. cbv beta iota.
  erewrite bind_Ret by (apply scale_loop_spec; [done | apply length_make]).
  erewrite bind_Ret
    by (apply full_loop_spec;
        [rewrite length_take_vscale by done; lia
        | apply length_half_point; rewrite length_vscale; done]).
  rewrite vadd_take_r.
  erewrite bind_Ret by exact Hf4. cbv beta iota.
  erewrite bind_Ret by (apply scale_loop_spec; [done | apply length_make]).
  erewrite bind_Ret
    by (apply average_loop_spec;
        rewrite ?length_take_vscale, ?length_make by done; lia).
  rewrite rk4_next_take. reflexivity.
Qed.

Lemma rk4Iteration_err (f : Function F W) tn Xn h w0 e w' :
  rk4_fails f tn Xn h w0 e w' ->
  rk4Iteration f tn Xn h w0 = Ret ([], Some e) w'.
Proof.
  intros [s Hf1 | s1 w1 s Hf1 L1 Hf2 | s1 w1 s2 w2 s Hf1 L1 Hf2 L2 Hf3
         | s1 w1 s2 w2 s3 w3 s Hf1 L1 Hf2 L2 Hf3 L3 Hf4];
    unfold rk4Iteration.
  - erewrite bind_Ret by exact Hf1. reflexivity.
  - erewrite bind_Ret by exact Hf1. cbv beta iota.
    erewrite bind_Ret by (apply scale_loop_spec; [done | apply length_make]).
    erewrite bind_Ret
      by (apply half_loop_spec;
          [rewrite length_take_vscale by done; lia | apply length_make]).
    rewrite half_point_take.
    erewrite bind_Ret by exact Hf2. reflexivity.
  - erewrite bind_Ret by exact Hf1. cbv beta iota.
    erewrite bind_Ret by (apply scale_loop_spec; [done | apply length_make]).
    erewrite bind_Ret
      by (apply half_loop_spec;
          [rewrite length_take_vscale by done; lia | apply length_make]).
    rewrite half_point_take.
    erewrite bind_Ret by exact Hf2. cbv beta iota.
    erewrite bind_Ret by (apply scale_loop_spec; [done | apply length_make]).
    erewrite bind_Ret
      by (apply half_loop_spec;
          [rewrite length_take_vscale by done; lia
          | apply length_half_point; rewrite length_vscale; done]).
    rewrite half_point_take.
    erewrite bind_Ret by exact Hf3. reflexivity.
  - erewrite bind_Ret by exact Hf1. cbv beta iota.
    erewrite bind_Ret by (apply scale_loop_spec; [done | apply length_make]).
    erewrite bind_Ret
      by (apply half_loop_spec;
          [rewrite length_take_vscale by done; lia | apply length_make]).
    rewrite half_point_take.
    erewrite bind_Ret by exact Hf2. cbv beta iota.
    erewrite bind_Ret by (apply scale_loop_spec; [done | apply length_make]).
    erewrite bind_Ret
      by (apply half_loop_spec;
          [rewrite length_take_vscale by done; lia
          | apply length_half_point; rewrite length_vscale; done]).
    rewrite half_point_take.
    erewrite bind_Ret by exact Hf3. cbv beta iota.
    erewrite bind_Ret by (apply scale_loop_spec; [done | apply length_make]).
    erewrite bind_Ret
      by (apply full_loop_spec;
          [rewrite length_take_vscale by done; lia
          | apply length_half_point; rewrite length_vscale; done]).
    rewrite vadd_take_r.
    erewrite bind_Ret by exact Hf4. reflexivity.
Qed.

(** The loop [Xm[i] = Xn[i] + h*slope[i]/2]. *)
Lemma midpoint_loop_spec h Xn (slope Xm : list F) (w : W) :
  length Xn <= length slope -> length Xm = length Xn ->
  midpoint_loop (length Xn) h Xn slope Xm w
  = Ret (vadd Xn (vdiv (vscale h slope) (flit 2))) w.
Proof.
  intros Hs HXm. unfold midpoint_loop.
  rewrite (zip_loop_spec (fun x s => fadd x (fdiv (fmul h s) (flit 2))))
    by done.
  f_equal. unfold vadd, vdiv, vscale. apply list_eq; intros i.
  rewrite !lookup_zip_with, !list_lookup_fmap.
  destruct (Xn !! i), (slope !! i); reflexivity.
Qed.

Lemma rk2Iteration_err (f : Function F W) tn Xn h w0 e w' :
  rk2_fails f tn Xn h w0 e w' ->
  rk2Iteration f tn Xn h w0 = Ret ([], Some e) w'.
Proof.
  intros [s Hf1 | s1 w1 s Hf1 L1 Hf2]; unfold rk2Iteration.
  - erewrite bind_Ret by exact Hf1. reflexivity.
  - erewrite bind_Ret by exact Hf1. cbv beta iota zeta.
    erewrite bind_Ret
      by (apply midpoint_loop_spec; [done | apply length_make]).
    erewrite bind_Ret by exact Hf2. reflexivity.
Qed.

(** Whichever solver of the package runs, an error of [f] is what its
    step returns, with a [nil] slice. *)
Lemma derivative_fails_step (solver : StandardSolver F W) f tn Xn h w0 e w' :
  derivative_fails solver f tn Xn h w0 e w' ->
  iteration solver f tn Xn h w0 = Ret ([], Some e) w'.
Proof.
  intros [s -> Hf | -> Hf | -> Hf].
  - unfold eulerIteration. erewrite bind_Ret by exact Hf. reflexivity.
  - apply rk2Iteration_err, Hf.
  - apply rk4Iteration_err, Hf.
Qed.
End RK4Correct.

Section RK4Claim.
Context {F : Type} `{Float64Ops F} {W : Type}.

(** C5.  When [f] succeeds at the four stages, the RK4 iteration returns
    [X_n + (k1 + 2·k2 + 2·k3 + k4)/6] with [k1 = h·f(t_n, X_n)],
    [k2 = h·f(t_n + h/2, X_n + k1/2)], [k3 = h·f(t_n + h/2, X_n + k2/2)]
    and [k4 = h·f(t_n + h, X_n + k3)], each slope having at least the
    dimension of [X_n]; when [f] fails at a stage, the iteration returns
    that error and a [nil] slice, no vector of partial results. *)
Theorem rk4Iteration_spec (f : Function F W) tn Xn h w0 :
  (forall s1 s2 s3 s4 w4,
      rk4_stages f tn Xn h w0 s1 s2 s3 s4 w4 ->
      rk4Iteration f tn Xn h w0
      = Ret (rk4_next Xn (vscale h s1) (vscale h s2)
               (vscale h s3) (vscale h s4), None) w4) /\
  (forall e w',
      rk4_fails f tn Xn h w0 e w' ->
      rk4Iteration f tn Xn h w0 = Ret ([], Some e) w').
Proof.
  split.
  - intros s1 s2 s3 s4 w4. apply rk4Iteration_ok.
  - intros e w'. apply rk4Iteration_err.
Qed.
End RK4Claim.

Lemma rk4Iteration_spec_witness :
  let s1 := [1%Q] in
  let s2 := vadd [1%Q] (vdiv (vscale 1%Q s1) 2%Q) in
  let s3 := vadd [1%Q] (vdiv (vscale 1%Q s2) 2%Q) in
  let s4 := vadd [1%Q] (vscale 1%Q s3) in
  (rk4_stages (@growth demo_world) 0%Q [1%Q] 1%Q [] s1 s2 s3 s4 [] /\
   rk4Iteration (@growth demo_world) 0%Q [1%Q] 1%Q []
   = Ret (rk4_next [1%Q] (vscale 1%Q s1) (vscale 1%Q s2)
            (vscale 1%Q s3) (vscale 1%Q s4), None) []) /\
  (rk4_fails (@bounded_slope demo_world) 1%Q [1%Q] 1%Q []
     "t is out of the domain" [] /\
   rk4Iteration (@bounded_slope demo_world) 1%Q [1%Q] 1%Q []
   = Ret ([], Some "t is out of the domain"%string) []).
Proof.
  intros s1 s2 s3 s4.
  assert (Hok : rk4_stages (@growth demo_world) 0%Q [1%Q] 1%Q []
                  s1 s2 s3 s4 []).
  { exists [], [], []. repeat split; simpl; lia. }
  assert (Hko : rk4_fails (@bounded_slope demo_world) 1%Q [1%Q] 1%Q []
                  "t is out of the domain" []).
  { apply (rk4_fails_2 _ _ _ _ _ _ _ [1%Q] [] []);
      [reflexivity | simpl; lia | reflexivity]. }
  split; (split; [assumption|]).
  - apply (proj1 (rk4Iteration_spec (@growth demo_world) 0%Q [1%Q] 1%Q [])).
    exact Hok.
  - apply (proj2 (rk4Iteration_spec (@bounded_slope demo_world)
                    1%Q [1%Q] 1%Q [])).
    exact Hko.
Defined.

(* ------------------------------------------------------------------ *)
(** ** The solve loop *)

Section SolveFacts.
Context {F : Type} `{Float64Ops F} {W : Type}.

Lemma uint64_incr_iter k :
  Nat.iter k uint64_incr 0%N = count_after k.
Proof.
  unfold count_after. induction k as [|k IH].
  - reflexivity.
  - simpl Nat.iter. rewrite IH. unfold uint64_incr.
    rewrite Nat2N.inj_succ, <- N.add_1_r.
    rewrite N.Div0.add_mod_idemp_l. reflexivity.
Qed.

Lemma count_after_small k :
  (N.of_nat k < 2 ^ 64)%N -> count_after k = N.of_nat k.
Proof. intros Hk. unfold count_after. apply N.mod_small. exact Hk. Qed.

Lemma iter_incr_shift k (nb : N) :
  Nat.iter k uint64_incr (uint64_incr nb) = Nat.iter (S k) uint64_incr nb.
Proof.
  induction k as [|k IH]; [reflexivity|].
  simpl Nat.iter in *. rewrite IH. reflexivity.
Qed.

Section Loop.
Variable solver : StandardSolver F W.
Variable f : Function F W.
Variable h : F.
Variable c : Controller F W.
Variable r : Recorder F W.

(** Every return of the loop is a sequence of committed passes followed
    by a last pass. *)
Lemma solve_loop_Ret_inv fuel : forall tm Xm nb w s' n err w',
  solve_loop fuel solver f h c r tm Xm nb w = Ret (s', (n, err)) w' ->
  exists l tk Xk wk,
    commits solver f h c r (tm, Xm, w) l (tk, Xk, wk) /\
    length l < fuel /\
    last_pass solver f h c r tk Xk wk err w' /\
    n = Nat.iter (length l) uint64_incr nb /\
    s' = solver_after solver tk Xk err.
Proof.
  induction fuel as [|fuel IH]; intros tm Xm nb w s' n err w' Hrun;
    simpl in Hrun; [discriminate|].
  unfold bind in Hrun at 1.
  destruct (iteration solver f tm Xm h w) as [[Xn [e|]] w1|w1|w1] eqn:Hit;
    try discriminate.
  { (* the step fails *)
    inversion Hrun; subst.
    exists [], tm, Xm, w.
    split; [constructor|]. split; [simpl; lia|].
    split; [eapply last_pass_step_error; eassumption|]. split; reflexivity. }
  unfold bind in Hrun at 1.
  destruct (Record r (fadd tm h) Xn w1) as [[] w2|w2|w2] eqn:Hrec;
    try discriminate.
  unfold bind in Hrun at 1.
  destruct (c (fadd tm h) Xn w2) as [[stop [e|]] w3|w3|w3] eqn:Hc;
    try discriminate.
  { (* the controller reports an error *)
    inversion Hrun; subst.
    exists [], tm, Xm, w.
    split; [constructor|]. split; [simpl; lia|].
    split; [eapply last_pass_control_error; eassumption|]. split; reflexivity. }
  destruct stop.
  { (* the controller stops the run *)
    inversion Hrun; subst.
    exists [], tm, Xm, w.
    split; [constructor|]. split; [simpl; lia|].
    split; [eapply last_pass_stop; eassumption|]. split; reflexivity. }
  (* the pass commits *)
  apply IH in Hrun as (l & tk & Xk & wk & Hl & Hlen & Hlast & Hn & Hs).
  exists ({| time := fadd tm h; state := Xn |} :: l), tk, Xk, wk.
  split; [eapply commits_cons; eassumption|].
  split; [simpl; lia|]. split; [exact Hlast|].
  split; [rewrite Hn; apply iter_incr_shift|exact Hs].
Qed.

(** Conversely, committed passes followed by a last pass make the loop
    return, as soon as the budget covers them. *)
Lemma solve_loop_Ret_intro l : forall tm Xm w tk Xk wk,
  commits solver f h c r (tm, Xm, w) l (tk, Xk, wk) ->
  forall fuel nb err w',
  last_pass solver f h c r tk Xk wk err w' ->
  length l < fuel ->
  solve_loop fuel solver f h c r tm Xm nb w
  = Ret (solver_after solver tk Xk err,
         (Nat.iter (length l) uint64_incr nb, err)) w'.
Proof.
  induction l as [|d l IH]; intros tm Xm w tk Xk wk Hl fuel nb err w'
    Hlast Hfuel; inversion Hl; subst;
    (destruct fuel as [|fuel]; [simpl in Hfuel; lia|]); simpl.
  - destruct Hlast as [Xn w1 w2 w' Hit Hrec Hc | Xn e w' Hit
                      | Xn w1 w2 stop e w' Hit Hrec Hc].
    + erewrite bind_Ret by exact Hit. cbv beta iota.
      erewrite bind_Ret by exact Hrec.
      erewrite bind_Ret by exact Hc. reflexivity.
    + erewrite bind_Ret by exact Hit. reflexivity.
    + erewrite bind_Ret by exact Hit. cbv beta iota.
      erewrite bind_Ret by exact Hrec.
      erewrite bind_Ret by exact Hc. reflexivity.
  - match goal with
    | Hit : iteration _ _ _ _ _ _ = _, Hrec : Record _ _ _ _ = _,
      Hc : c _ _ _ = _ |- _ =>
        erewrite bind_Ret by exact Hit; cbv beta iota;
        erewrite bind_Ret by exact Hrec;
        erewrite bind_Ret by exact Hc; cbv beta iota
    end.
    erewrite IH; [ | eassumption | eassumption | simpl in Hfuel; lia ].
    rewrite iter_incr_shift. reflexivity.
Qed.
End Loop.
End SolveFacts.

Section RunFacts.
Context {F : Type} `{Float64Ops F} {W : Type}.
Variable solver : StandardSolver F W.
Variable f : Function F W.
Variable h : F.
Variable c : Controller F W.

(** The state reached by committed passes is the last sample committed,
    or the starting state when there is none. *)
Lemma commits_last r s l s' :
  commits solver f h c r s l s' ->
  (s'.1.1, s'.1.2)
  = from_option (fun d => (time d, state d)) (s.1.1, s.1.2) (last l).
Proof.
  induction 1 as [s|tm Xm w Xn w1 w2 w3 l s' Hit Hrec Hc Hl IH].
  - reflexivity.
  - rewrite IH, last_cons. simpl. destruct (last l); reflexivity.
Qed.

(** An accumulating recorder whose series the step algorithm and the
    controller do not touch holds, after committed passes, the samples
    committed, in order. *)
Lemma commits_series (get : W -> TimeSeries F) set s l s' :
  (forall ts w, get (set ts w) = ts) ->
  (forall tm Xm, preserves get (iteration solver f tm Xm h)) ->
  (forall t X, preserves get (c t X)) ->
  commits solver f h c (RecorderTimeSeries get set) s l s' ->
  get s'.2 = get s.2 ++ l.
Proof.
  intros Hlens Hit Hc.
  induction 1 as [s|tm Xm w Xn w1 w2 w3 l s' Hit1 Hrec Hc1 Hl IH].
  - rewrite app_nil_r. reflexivity.
  - rewrite IH. simpl in *.
    pose proof (Hc (fadd tm h) Xn w2) as Hc2. rewrite Hc1 in Hc2.
    pose proof (Hit tm Xm w) as Hit2. rewrite Hit1 in Hit2.
    simpl in Hc2, Hit2. rewrite Hc2.
    inversion Hrec; subst w2. rewrite Hlens, Hit2.
    rewrite <- app_assoc. reflexivity.
Qed.
End RunFacts.

(* ------------------------------------------------------------------ *)
(** ** Properties of [Solve] *)

Section SolveProperties.
Context {F : Type} `{Float64Ops F} {W : Type}.

Lemma Solve_Ret_inv fuel (solver : StandardSolver F W) fo t0 X0 h c r w
    s' n err w' :
  Solve fuel solver fo t0 X0 h c r w = Ret (s', (n, err)) w' ->
  (fo = None /\ s' = solver /\ n = 0%N /\ w' = w /\
   err = Some "ERR: the function f is not defined"%string) \/
  (exists f w1 l tk Xk wk,
    fo = Some f /\
    Record (recorder_or_none r) t0 X0 w = Ret tt w1 /\
    commits solver f h c (recorder_or_none r) (t0, X0, w1) l (tk, Xk, wk) /\
    length l < fuel /\
    last_pass solver f h c (recorder_or_none r) tk Xk wk err w' /\
    n = count_after (length l) /\
    s' = solver_after solver tk Xk err).
Proof.
  unfold Solve. destruct fo as [f|].
  - intros Hrun. right. unfold bind in Hrun at 1.
    fold (recorder_or_none r) in Hrun.
    destruct (Record (recorder_or_none r) t0 X0 w) as [[] w1|w1|w1] eqn:Hrec;
      try discriminate.
    apply solve_loop_Ret_inv in Hrun
      as (l & tk & Xk & wk & Hl & Hlen & Hlast & Hn & Hs).
    exists f, w1, l, tk, Xk, wk.
    rewrite uint64_incr_iter in Hn. auto 10.
  - intros Hrun. left. inversion Hrun; subst. auto.
Qed.

Lemma Solve_Ret_intro fuel (solver : StandardSolver F W) f t0 X0 h c r w
    w1 l tk Xk wk err w' :
  Record (recorder_or_none r) t0 X0 w = Ret tt w1 ->
  commits solver f h c (recorder_or_none r) (t0, X0, w1) l (tk, Xk, wk) ->
  last_pass solver f h c (recorder_or_none r) tk Xk wk err w' ->
  length l < fuel ->
  Solve fuel solver (Some f) t0 X0 h c r w
  = Ret (solver_after solver tk Xk err, (count_after (length l), err)) w'.
Proof.
  intros Hrec Hl Hlast Hfuel. unfold Solve.
  fold (recorder_or_none r).
  erewrite bind_Ret by exact Hrec.
  erewrite solve_loop_Ret_intro by eassumption.
  rewrite uint64_incr_iter. reflexivity.
Qed.

(** What a run returns does not depend on the budget of the model, once
    the budget lets it return. *)
Lemma Solve_fuel_mono fuel fuel' (solver : StandardSolver F W) fo t0 X0 h c r
    w x w' :
  Solve fuel solver fo t0 X0 h c r w = Ret x w' ->
  fuel <= fuel' ->
  Solve fuel' solver fo t0 X0 h c r w = Ret x w'.
Proof.
  destruct x as [s' [n err]]. intros Hrun Hfuel.
  apply Solve_Ret_inv in Hrun
    as [(-> & -> & -> & -> & ->)
       | (f & w1 & l & tk & Xk & wk & -> & Hrec & Hl & Hlen & Hlast & -> & ->)].
  - reflexivity.
  - apply (Solve_Ret_intro fuel' solver f t0 X0 h c r w w1 l tk Xk wk err w');
      [assumption..|lia].
Qed.

(** C1.  When [Solve] returns a [nil] error, [Result()] is the state
    [(t, X)] that the last committing pass of the loop stored (the initial
    state when no pass committed), not the sample on which the controller
    stopped the run; the count returned is the number of passes that
    committed, as a [uint64]. *)
Theorem Solve_success_exposes_last_commit fuel (solver : StandardSolver F W)
    fo t0 X0 h c r w s' n w' :
  Solve fuel solver fo t0 X0 h c r w = Ret (s', (n, None)) w' ->
  exists f w1 l tk Xk wk,
    fo = Some f /\
    Record (recorder_or_none r) t0 X0 w = Ret tt w1 /\
    commits solver f h c (recorder_or_none r) (t0, X0, w1) l (tk, Xk, wk) /\
    last_pass solver f h c (recorder_or_none r) tk Xk wk None w' /\
    Result s' = (tk, Xk) /\
    Result s'
    = from_option (fun d => (time d, state d)) (t0, X0) (last l) /\
    n = count_after (length l) /\
    ((N.of_nat (length l) < 2 ^ 64)%N -> n = N.of_nat (length l)).
Proof.
  intros Hrun.
  apply Solve_Ret_inv in Hrun
    as [(_ & _ & _ & _ & Herr)
       | (f & w1 & l & tk & Xk & wk & -> & Hrec & Hl & _ & Hlast & -> & ->)];
    [discriminate|].
  exists f, w1, l, tk, Xk, wk.
  split; [reflexivity|]. split; [exact Hrec|]. split; [exact Hl|].
  split; [exact Hlast|]. split; [reflexivity|].
  split; [|split; [reflexivity|apply count_after_small]].
  apply commits_last in Hl. simpl in Hl. unfold Result. simpl.
  exact Hl.
Qed.

(** C9.  When [Solve] returns a non-[nil] error, the solver is the one
    the call received: [Result()] gives what it gave before the call. *)
Theorem Solve_error_keeps_result fuel (solver : StandardSolver F W)
    fo t0 X0 h c r w s' n e w' :
  Solve fuel solver fo t0 X0 h c r w = Ret (s', (n, Some e)) w' ->
  s' = solver /\ Result s' = Result solver.
Proof.
  intros Hrun.
  apply Solve_Ret_inv in Hrun
    as [(_ & -> & _)
       | (f & w1 & l & tk & Xk & wk & _ & _ & _ & _ & _ & _ & ->)];
    simpl; split; reflexivity.
Qed.

(** C3.  When the derivative function returns an error during the step
    that follows [length l] committed passes, [Solve] returns that error
    at once with the count of the committed passes; the memory it leaves
    is the one the failing call left, so that an accumulating recorder
    holds the initial sample and the committed samples and nothing for
    the failing step; the solver is unchanged. *)
Theorem Solve_derivative_error fuel (solver : StandardSolver F W)
    f t0 X0 h c r w w1 l tk Xk wk e w' :
  Record (recorder_or_none r) t0 X0 w = Ret tt w1 ->
  commits solver f h c (recorder_or_none r) (t0, X0, w1) l (tk, Xk, wk) ->
  derivative_fails solver f tk Xk h wk e w' ->
  length l < fuel ->
  Solve fuel solver (Some f) t0 X0 h c r w
  = Ret (solver, (count_after (length l), Some e)) w' /\
  (forall get set,
      r = Some (RecorderTimeSeries get set) ->
      (forall ts w, get (set ts w) = ts) ->
      (forall tm Xm, preserves get (iteration solver f tm Xm h)) ->
      (forall t X, preserves get (c t X)) ->
      get w' = get w ++ {| time := t0; state := X0 |} :: l).
Proof.
  intros Hrec Hl Hfail Hfuel.
  apply derivative_fails_step in Hfail.
  split.
  - apply (Solve_Ret_intro fuel solver f t0 X0 h c r w w1 l tk Xk wk
             (Some e) w' Hrec Hl); [|exact Hfuel].
    eapply last_pass_step_error. exact Hfail.
  - intros get set -> Hlens Hit Hc. simpl in Hrec, Hl.
    pose proof (Hit tk Xk wk) as Hw'. rewrite Hfail in Hw'. simpl in Hw'.
    rewrite Hw'.
    apply (commits_series solver f h c get set) in Hl; [|done..].
    simpl in Hl. rewrite Hl.
    inversion Hrec; subst w1. rewrite Hlens, <- app_assoc. reflexivity.
Qed.
End SolveProperties.

Lemma Solve_success_exposes_last_commit_witness :
  let s' := {| t := 1%Q; X := [6 # 6]%Q; iteration := rk4Iteration |} in
  let w' := [ {| time := 0%Q; state := [0%Q] |};
              {| time := 1%Q; state := [6 # 6]%Q |};
              {| time := 2%Q; state := [72 # 36]%Q |} ] in
  Solve 5 NewRK4Solver (Some unit_slope) 0%Q [0%Q] 1%Q
    (StopAtTime (3 # 2)%Q) (Some demo_recorder) []
  = Ret (s', (1%N, None)) w' /\
  exists f w1 l tk Xk wk,
    Some unit_slope = Some f /\
    Record demo_recorder 0%Q [0%Q] [] = Ret tt w1 /\
    commits NewRK4Solver f 1%Q (StopAtTime (3 # 2)%Q) demo_recorder
      (0%Q, [0%Q], w1) l (tk, Xk, wk) /\
    last_pass NewRK4Solver f 1%Q (StopAtTime (3 # 2)%Q) demo_recorder
      tk Xk wk None w' /\
    Result s' = (tk, Xk) /\
    Result s'
    = from_option (fun d => (time d, state d)) (0%Q, [0%Q]) (last l) /\
    1%N = count_after (length l) /\
    ((N.of_nat (length l) < 2 ^ 64)%N -> 1%N = N.of_nat (length l)).
Proof.
  intros s' w'. split; [reflexivity|].
  apply (Solve_success_exposes_last_commit 5 NewRK4Solver (Some unit_slope)
           0%Q [0%Q] 1%Q (StopAtTime (3 # 2)%Q) (Some demo_recorder) []).
  reflexivity.
Defined.

Lemma Solve_error_keeps_result_witness :
  let w' := [ {| time := 0%Q; state := [0%Q] |};
              {| time := 1%Q; state := [6 # 6]%Q |} ] in
  Solve 5 used_solver (Some bounded_slope) 0%Q [0%Q] 1%Q
    (StopAtTime (7 # 2)%Q) (Some demo_recorder) []
  = Ret (used_solver, (1%N, Some "t is out of the domain"%string)) w' /\
  used_solver = used_solver /\ Result used_solver = (5%Q, [9%Q]).
Proof.
  intros w'. split; [reflexivity|].
  apply (Solve_error_keeps_result 5 used_solver (Some bounded_slope)
           0%Q [0%Q] 1%Q (StopAtTime (7 # 2)%Q) (Some demo_recorder) []
           used_solver 1%N "t is out of the domain"%string w').
  reflexivity.
Defined.

Lemma Solve_derivative_error_witness :
  let d0 := {| time := 0%Q; state := [0%Q] |} in
  let d1 := {| time := (0 + 1)%Q; state := [6 # 6]%Q |} in
  Solve 5 NewRK4Solver (Some bounded_slope) 0%Q [0%Q] 1%Q
    (StopAtTime (7 # 2)%Q) (Some demo_recorder) []
  = Ret (NewRK4Solver, (count_after 1, Some "t is out of the domain"%string))
      [d0; d1] /\
  (forall get set,
      Some demo_recorder = Some (RecorderTimeSeries get set) ->
      (forall ts w, get (set ts w) = ts) ->
      (forall tm Xm,
          preserves get (iteration NewRK4Solver bounded_slope tm Xm 1%Q)) ->
      (forall t X, preserves get (StopAtTime (7 # 2)%Q t X)) ->
      get [d0; d1] = get [] ++ d0 :: [d1]).
Proof.
  intros d0 d1.
  apply (Solve_derivative_error 5 NewRK4Solver bounded_slope 0%Q [0%Q] 1%Q
           (StopAtTime (7 # 2)%Q) (Some demo_recorder) [] [d0] [d1]
           (0 + 1)%Q [6 # 6]%Q [d0; d1]).
  - reflexivity.
  - exact (commits_cons NewRK4Solver bounded_slope 1%Q (StopAtTime (7 # 2)%Q)
             demo_recorder 0%Q [0%Q] [d0] [6 # 6]%Q [d0] [d0; d1] [d0; d1]
             [] _ eq_refl eq_refl eq_refl (commits_nil _ _ _ _ _ _)).
  - apply derivative_fails_rk4; [reflexivity|].
    apply (rk4_fails_2 _ _ _ _ _ _ _ [1%Q] [d0; d1] []);
      [reflexivity | simpl; lia | reflexivity].
  - simpl. lia.
Defined.


(* ------------------------------------------------------------------ *)
(** ** The controllers *)

Section MultiControllerFacts.
Context {F : Type} `{Float64Ops F} {W : Type}.

Lemma MultiController_app (pre : list (Controller F W)) rest t X w w1 :
  all_continue t X pre w w1 ->
  MultiController (pre ++ rest) t X w = MultiController rest t X w1.
Proof.
  induction 1 as [w|c cs w w1 w2 Hc Hcs IH]; [reflexivity|].
  simpl. erewrite bind_Ret by exact Hc. exact IH.
Qed.

(** C6.  The aggregate calls the sub-controllers in the order given.  The
    first one that does not answer [(false, nil)] decides: on a non-[nil]
    error the aggregate returns [(true, err)], on [(true, nil)] it returns
    [(true, nil)]; in both cases the memory is the one that sub-controller
    left, whatever the sub-controllers after it are: they are not called.
    When all answer [(false, nil)] the aggregate returns [(false, nil)]. *)
Theorem MultiController_spec (pre : list (Controller F W)) c post t X w w1 w' :
  all_continue t X pre w w1 ->
  (forall stop e,
      c t X w1 = Ret (stop, Some e) w' ->
      MultiController (pre ++ c :: post) t X w = Ret (true, Some e) w') /\
  (c t X w1 = Ret (true, None) w' ->
   MultiController (pre ++ c :: post) t X w = Ret (true, None) w') /\
  MultiController pre t X w = Ret (false, None) w1.
Proof.
  intros Hpre. split; [|split].
  - intros stop e Hc. rewrite (MultiController_app pre _ t X w w1 Hpre).
    simpl. erewrite bind_Ret by exact Hc. reflexivity.
  - intros Hc. rewrite (MultiController_app pre _ t X w w1 Hpre).
    simpl. erewrite bind_Ret by exact Hc. reflexivity.
  - rewrite <- (app_nil_r pre).
    rewrite (MultiController_app pre _ t X w w1 Hpre). reflexivity.
Qed.
End MultiControllerFacts.

Lemma MultiController_spec_witness :
  MultiController [NeverStop "a"; ErrorController "b"; AlwaysStop "c"]
    0%Q [] [] = Ret (true, Some "diverged"%string) ["a"; "b"]%string /\
  MultiController [NeverStop "a"; AlwaysStop "b"; ErrorController "c"]
    0%Q [] [] = Ret (true, None) ["a"; "b"]%string /\
  MultiController [NeverStop "a"] 0%Q [] [] = Ret (false, None) ["a"%string].
Proof.
  assert (Hpre : all_continue 0%Q [] [NeverStop "a"] [] ["a"%string]).
  { eapply all_continue_cons; [reflexivity|]. apply all_continue_nil. }
  split; [|split].
  - apply (proj1 (MultiController_spec [NeverStop "a"] (ErrorController "b")
                    [AlwaysStop "c"] 0%Q [] [] _ _ Hpre) false).
    reflexivity.
  - apply (proj1 (proj2 (MultiController_spec [NeverStop "a"] (AlwaysStop "b")
                    [ErrorController "c"] 0%Q [] [] _ _ Hpre))).
    reflexivity.
  - exact (proj2 (proj2 (MultiController_spec [NeverStop "a"] (AlwaysStop "b")
                    [] 0%Q [] [] _ ["a"; "b"]%string Hpre))).
Defined.

(* ------------------------------------------------------------------ *)
(** ** The time-series export *)

Section ExportFacts.
Context {F : Type} `{Float64Ops F} {W : Type}.
Variable File : Type.
Variable os_Create : string -> M W (File * option error).
Variable file_WriteString : File -> string -> M W unit.
Variable file_Close : File -> M W unit.
Variable log_Printf : string -> M W unit.
Variable Sprintf_4f : F -> string.
Variable Sprintf_12f : F -> string.
Variable Sprintf_v : list string -> string.

(** C10, on the code.  On an empty series [ToCSVwithNames] returns the
    error "the timeseries has no data" before it creates any file, while
    [ToCSV] panics on [series[0]] before it reaches that test. *)
Theorem ToCSV_empty_series (filepath : string) (names : list string) (w : W) :
  ToCSVwithNames File os_Create file_WriteString file_Close log_Printf
    Sprintf_4f Sprintf_12f Sprintf_v [] filepath names w
  = Ret (Some "the timeseries has no data"%string) w /\
  ToCSV File os_Create file_WriteString file_Close log_Printf
    Sprintf_4f Sprintf_12f Sprintf_v [] filepath w
  = Crash w.
Proof. split; reflexivity. Qed.
End ExportFacts.


(* ------------------------------------------------------------------ *)
(** ** Parts of the memory that a computation leaves alone *)

Section Frames.
Context {F : Type} `{Float64Ops F} {W V : Type}.
Variable get : W -> V.

Lemma preserves_ret {A} (a : A) : preserves get (ret a).
Proof. intros w. reflexivity. Qed.

Lemma preserves_panic {A} : preserves get (panic (A := A)).
Proof. intros w. reflexivity. Qed.

Lemma preserves_bind {A B} (m : M W A) (k : A -> M W B) :
  preserves get m -> (forall a, preserves get (k a)) ->
  preserves get (bind m k).
Proof.
  intros Hm Hk w. unfold bind. specialize (Hm w).
  destruct (m w) as [a w1|w1|w1]; simpl in *; [|exact Hm..].
  rewrite Hk. exact Hm.
Qed.

Lemma preserves_index {A} (l : list A) i : preserves get (index l i).
Proof.
  unfold index. destruct (l !! i); [apply preserves_ret|apply preserves_panic].
Qed.

Lemma preserves_store {A} (l : list A) i v : preserves get (store l i v).
Proof.
  unfold store.
  destruct (decide _); [apply preserves_ret|apply preserves_panic].
Qed.

Lemma preserves_for_range {St} (body : nat -> St -> M W St) n :
  (forall i s, preserves get (body i s)) ->
  forall i s, preserves get (for_range n i body s).
Proof.
  intros Hbody. induction n as [|n IH]; intros i s; simpl.
  - apply preserves_ret.
  - apply preserves_bind; [apply Hbody|]. intros s'. apply IH.
Qed.

Create HintDb frame.
#[local] Hint Resolve preserves_ret preserves_panic preserves_index
  preserves_store : frame.

Ltac frame :=
  repeat first
    [ progress auto with frame
    | apply preserves_bind; [|intros ?]
    | apply preserves_for_range; intros ? ?
    | match goal with
      | |- preserves _ (let '(_, _) := ?p in _) => destruct p
      | |- preserves _ (match ?e with Some _ => _ | None => _ end) =>
          destruct e
      end ].

Lemma preserves_eulerIteration (f : Function F W) tn Xn h :
  (forall t X, preserves get (f t X)) ->
  preserves get (eulerIteration f tn Xn h).
Proof.
  intros Hf. unfold eulerIteration, euler_loop, for_upto.
  cbv zeta. frame.
Qed.

Lemma preserves_rk2Iteration (f : Function F W) tn Xn h :
  (forall t X, preserves get (f t X)) ->
  preserves get (rk2Iteration f tn Xn h).
Proof.
  intros Hf. unfold rk2Iteration, euler_loop, midpoint_loop, for_upto.
  cbv zeta. frame.
Qed.

Lemma preserves_rk4Iteration (f : Function F W) tn Xn h :
  (forall t X, preserves get (f t X)) ->
  preserves get (rk4Iteration f tn Xn h).
Proof.
  intros Hf.
  unfold rk4Iteration, scale_loop, half_loop, full_loop, average_loop,
    for_upto.
  cbv zeta. frame.
Qed.

Lemma preserves_StopAtTime tmax t X : preserves get (StopAtTime tmax t X).
Proof.
  unfold StopAtTime. cbv zeta. destruct (_ || _); apply preserves_ret.
Qed.
End Frames.

(* ------------------------------------------------------------------ *)
(** ** The order of recording and control *)

Section CallOrder.
Context {F : Type} `{Float64Ops F} {W : Type}.
Variable journal : W -> list (event F).
Variable set_journal : list (event F) -> W -> W.
Hypothesis journal_set : forall l w, journal (set_journal l w) = l.

Variable solver : StandardSolver F W.
Variable f : Function F W.
Variable h : F.
Variable c : Controller F W.
Variable r : Recorder F W.
Hypothesis step_frame :
  forall tm Xm, preserves journal (iteration solver f tm Xm h).
Hypothesis control_frame : forall t X, preserves journal (c t X).
Hypothesis record_frame : forall t X, preserves journal (Record r t X).

Let r' := traced_recorder journal set_journal r.
Let c' := traced_controller journal set_journal c.

Lemma traced_record_journal t X w :
  journal (world_of (Record r' t X w)) = journal w ++ [EvRecord t X].
Proof.
  unfold r', traced_recorder, tell, bind. cbn [Record].
  rewrite record_frame, journal_set. reflexivity.
Qed.

Lemma traced_control_journal t X w :
  journal (world_of (c' t X w)) = journal w ++ [EvControl t X].
Proof.
  unfold c', traced_controller, tell, bind.
  rewrite control_frame, journal_set. reflexivity.
Qed.

(** The loop only adds to the journal. *)
Lemma solve_loop_journal_extends fuel : forall tm Xm nb w,
  exists rest,
    journal (world_of (solve_loop fuel solver f h c' r' tm Xm nb w))
    = journal w ++ rest.
Proof.
  induction fuel as [|fuel IH]; intros tm Xm nb w; cbn [solve_loop].
  - exists []. rewrite app_nil_r. reflexivity.
  - unfold bind at 1.
    pose proof (step_frame tm Xm w) as Hit.
    destruct (iteration solver f tm Xm h w) as [[Xn [e|]] w1|w1|w1];
      simpl in Hit;
      try (exists []; rewrite app_nil_r; simpl; exact Hit).
    cbv beta iota zeta. unfold bind at 1.
    pose proof (traced_record_journal (fadd tm h) Xn w1) as Hrec.
    destruct (Record r' (fadd tm h) Xn w1) as [[] w2|w2|w2];
      simpl in Hrec;
      try (eexists; simpl; rewrite Hrec, Hit; reflexivity).
    unfold bind at 1.
    pose proof (traced_control_journal (fadd tm h) Xn w2) as Hc.
    destruct (c' (fadd tm h) Xn w2) as [[stop [e|]] w3|w3|w3];
      simpl in Hc;
      try (eexists; simpl; rewrite Hc, Hrec, Hit, <- app_assoc; reflexivity).
    destruct stop.
    + eexists; simpl; rewrite Hc, Hrec, Hit, <- app_assoc; reflexivity.
    + destruct (IH (fadd tm h) Xn (uint64_incr nb) w3) as [rest Hrest].
      eexists. rewrite Hrest, Hc, Hrec, Hit, <- !app_assoc. reflexivity.
Qed.

(** The first pass of the loop: the journal grows by nothing, by the
    record of the new sample, or by that record followed by the control of
    the same sample and what comes after; the record is there as soon as
    the step algorithm succeeds. *)
Lemma solve_loop_first_pass fuel tm Xm nb w :
  exists rest,
    journal (world_of (solve_loop (S fuel) solver f h c' r' tm Xm nb w))
    = journal w ++ rest /\
    (rest = [] \/
     exists Xn rest',
       rest = EvRecord (fadd tm h) Xn :: rest' /\
       (rest' = [] \/
        exists rest'', rest' = EvControl (fadd tm h) Xn :: rest'')) /\
    (forall Xn w1,
        iteration solver f tm Xm h w = Ret (Xn, None) w1 ->
        exists rest', rest = EvRecord (fadd tm h) Xn :: rest').
Proof.
  cbn [solve_loop]. unfold bind at 1.
  pose proof (step_frame tm Xm w) as Hit.
  destruct (iteration solver f tm Xm h w) as [[Xn [e|]] w1|w1|w1];
    simpl in Hit;
    try (exists []; rewrite app_nil_r; simpl;
         split; [exact Hit|split; [left; reflexivity|discriminate]]).
  cbv beta iota zeta. unfold bind at 1.
  pose proof (traced_record_journal (fadd tm h) Xn w1) as Hrec.
  assert (Hstep : forall rest' Xn0 w0,
             @Ret W (list F * option error) (Xn, None) w1
             = Ret (Xn0, None) w0 ->
             exists rest0,
               EvRecord (fadd tm h) Xn :: rest'
               = EvRecord (fadd tm h) Xn0 :: rest0).
  { intros rest' Xn0 w0 Heq. inversion Heq; subst. eexists; reflexivity. }
  destruct (Record r' (fadd tm h) Xn w1) as [[] w2|w2|w2]; simpl in Hrec;
    try (exists [EvRecord (fadd tm h) Xn]; simpl;
         split; [rewrite Hrec, Hit; reflexivity|];
         split; [right; exists Xn, []; split; [reflexivity|left; reflexivity]
                |apply Hstep]).
  unfold bind at 1.
  pose proof (traced_control_journal (fadd tm h) Xn w2) as Hc.
  assert (Hshape : forall rest'',
             [EvRecord (fadd tm h) Xn; EvControl (fadd tm h) Xn] ++ rest'' = []
             \/ exists Xn0 rest',
                 [EvRecord (fadd tm h) Xn; EvControl (fadd tm h) Xn] ++ rest''
                 = EvRecord (fadd tm h) Xn0 :: rest' /\
                 (rest' = [] \/
                  exists rest0, rest' = EvControl (fadd tm h) Xn0 :: rest0)).
  { intros rest''. right. exists Xn, (EvControl (fadd tm h) Xn :: rest'').
    split; [reflexivity|]. right. eexists; reflexivity. }
  destruct (c' (fadd tm h) Xn w2) as [[stop [e|]] w3|w3|w3]; simpl in Hc;
    try (exists ([EvRecord (fadd tm h) Xn; EvControl (fadd tm h) Xn] ++ []);
         simpl;
         split; [rewrite Hc, Hrec, Hit, <- app_assoc; reflexivity|];
         split; [apply (Hshape [])|apply Hstep]).
  destruct stop.
  - exists ([EvRecord (fadd tm h) Xn; EvControl (fadd tm h) Xn] ++ []).
    simpl.
    split; [rewrite Hc, Hrec, Hit, <- app_assoc; reflexivity|].
    split; [apply (Hshape [])|apply Hstep].
  - destruct (solve_loop_journal_extends fuel (fadd tm h) Xn
                (uint64_incr nb) w3) as [rest Hrest].
    exists ([EvRecord (fadd tm h) Xn; EvControl (fadd tm h) Xn] ++ rest).
    split; [rewrite Hrest, Hc, Hrec, Hit, <- !app_assoc; reflexivity|].
    split; [apply Hshape|apply Hstep].
Qed.

(** C7, as the code has it.  Whatever the controller is, the first call a
    run makes is [Record(t0, X0)]; a call of the controller comes only
    after a second call of [Record], at [(t0+h, X1)], and is made at that
    sample; and this second sample is recorded as soon as the first step
    succeeds, that is, as soon as the step algorithm returns a [nil]
    error. *)
Theorem Solve_records_before_control fuel t0 X0 w :
  exists rest,
    journal (world_of (Solve (S fuel) solver (Some f) t0 X0 h c' (Some r') w))
    = journal w ++ EvRecord t0 X0 :: rest /\
    (rest = [] \/
     exists X1 rest',
       rest = EvRecord (fadd t0 h) X1 :: rest' /\
       (rest' = [] \/
        exists rest'', rest' = EvControl (fadd t0 h) X1 :: rest'')) /\
    (forall w1 X1 w2,
        Record r' t0 X0 w = Ret tt w1 ->
        iteration solver f t0 X0 h w1 = Ret (X1, None) w2 ->
        exists rest', rest = EvRecord (fadd t0 h) X1 :: rest').
Proof.
  unfold Solve. cbn [recorder_or_none]. cbv zeta. unfold bind at 1.
  pose proof (traced_record_journal t0 X0 w) as Hrec.
  destruct (Record r' t0 X0 w) as [[] w1|w1|w1]; simpl in Hrec;
    try (exists []; simpl;
         split; [exact Hrec|split; [left; reflexivity|discriminate]]).
  destruct (solve_loop_first_pass fuel t0 X0 0%N w1)
    as (rest & Hlog & Hshape & Hstep).
  exists rest.
  split; [rewrite Hlog, Hrec, <- app_assoc; reflexivity|].
  split; [exact Hshape|].
  intros w0 X1 w2 Heq Hit. inversion Heq; subst w0.
  eapply Hstep. exact Hit.
Qed.
End CallOrder.

(* ------------------------------------------------------------------ *)
(** ** Concrete runs *)

(** The RK4 step of [dx/dt = 1] on a state of dimension 1. *)
Lemma rk4Iteration_unit_slope {W : Type} (tm : Q) (Xm : list Q) (h : Q)
    (w : W) :
  length Xm = 1 ->
  exists Xn w1,
    rk4Iteration unit_slope tm Xm h w = Ret (Xn, None) w1 /\
    w1 = w /\ length Xn = 1.
Proof.
  destruct Xm as [|x [|y Xm]]; try discriminate. intros _.
  eexists _, w. split; [reflexivity|]. split; reflexivity.
Qed.

(** C7 as stated fails for a solver that evaluates [f] more than once in a
    step.  With the RK4 solver, [t0 = 1], [h = 1] and a derivative defined
    up to [t = 1]: the first evaluation of [f], at [(t0, X0)], succeeds, the
    second, at [t0 + h/2], fails, and the run records the initial sample
    only. *)
Lemma second_sample_counterexample :
  let journal := fun w : journal_world => w in
  let set_journal := fun (l : list (event Q)) (_ : journal_world) => l in
  let r' := traced_recorder journal set_journal RecorderNone in
  let c' := traced_controller journal set_journal StopNow in
  (forall w : journal_world,
      bounded_slope 1%Q [0%Q] w = Ret ([1%Q], None) w) /\
  Solve 3 NewRK4Solver (Some bounded_slope) 1%Q [0%Q] 1%Q c' (Some r') []
  = Ret (NewRK4Solver, (0%N, Some "t is out of the domain"%string))
      [EvRecord 1%Q [0%Q]] /\
  ~ second_sample_recorded 1%Q 1%Q [EvRecord 1%Q [0%Q]].
Proof.
  intros journal set_journal r' c'.
  split; [reflexivity|]. split; [reflexivity|].
  intros (X0 & X1 & rest & Heq). discriminate.
Qed.

Lemma Solve_records_before_control_witness :
  let journal := fun w : journal_world => w in
  let set_journal := fun (l : list (event Q)) (_ : journal_world) => l in
  let r' := traced_recorder journal set_journal RecorderNone in
  let c' := traced_controller journal set_journal StopNow in
  exists rest,
    world_of (Solve 3 NewRK4Solver (Some unit_slope) 0%Q [0%Q] 1%Q c'
                (Some r') [])
    = [] ++ EvRecord 0%Q [0%Q] :: rest /\
    (rest = [] \/
     exists X1 rest',
       rest = EvRecord (0 + 1)%Q X1 :: rest' /\
       (rest' = [] \/
        exists rest'', rest' = EvControl (0 + 1)%Q X1 :: rest'')) /\
    (forall w1 X1 w2,
        Record r' 0%Q [0%Q] [] = Ret tt w1 ->
        rk4Iteration unit_slope 0%Q [0%Q] 1%Q w1 = Ret (X1, None) w2 ->
        exists rest', rest = EvRecord (0 + 1)%Q X1 :: rest').
Proof.
  intros journal set_journal r' c'.
  assert (Hstep : forall tm Xm,
             preserves journal
               (iteration NewRK4Solver unit_slope tm Xm 1%Q)).
  { intros tm Xm. apply preserves_rk4Iteration.
    intros t X. apply preserves_ret. }
  assert (Hcontrol : forall t X, preserves journal (StopNow t X)).
  { intros t X. apply preserves_ret. }
  assert (Hrecord : forall (t : Q) (X : list Q),
             preserves journal (Record (F := Q) RecorderNone t X)).
  { intros t X. apply preserves_ret. }
  exact (Solve_records_before_control journal set_journal
           (fun l w => eq_refl) NewRK4Solver unit_slope 1%Q StopNow
           RecorderNone Hstep Hcontrol Hrecord 2 0%Q [0%Q] []).
Defined.

(* ------------------------------------------------------------------ *)
(** ** Further properties of the step algorithms *)

Section LoopInversion.
Context {W : Type}.

Lemma bind_Ret_inv {A B} (m : M W A) (k : A -> M W B) w b w' :
  bind m k w = Ret b w' ->
  exists a w1, m w = Ret a w1 /\ k a w1 = Ret b w'.
Proof.
  unfold bind. destruct (m w) as [a w1|w1|w1]; [eauto|discriminate..].
Qed.

Lemma bind_Crash {A B} (m : M W A) (k : A -> M W B) w w' :
  m w = Crash w' -> bind m k w = Crash w'.
Proof. unfold bind. intros ->. reflexivity. Qed.

Lemma index_Ret_inv {A} (l : list A) i x (w w' : W) :
  index l i w = Ret x w' -> l !! i = Some x /\ w' = w.
Proof.
  unfold index. destruct (l !! i); intros E; inversion E; auto.
Qed.

Lemma index_None {A} (l : list A) i (w : W) :
  length l <= i -> index l i w = Crash w.
Proof.
  intros Hi. unfold index. rewrite lookup_ge_None_2 by exact Hi. reflexivity.
Qed.

Lemma store_Ret_inv {A} (l : list A) i v l' (w w' : W) :
  store l i v w = Ret l' w' -> l' = <[i := v]> l /\ i < length l /\ w' = w.
Proof.
  unfold store. destruct (decide (i < length l)); intros E; inversion E; auto.
Qed.

(** What every pass keeps, the loop keeps. *)
Lemma for_range_Ret_inv {St} (P : St -> Prop) (body : nat -> St -> M W St) :
  (forall i s w s' w', body i s w = Ret s' w' -> P s -> P s') ->
  forall n i s w s' w', for_range n i body s w = Ret s' w' -> P s -> P s'.
Proof.
  intros Hbody. induction n as [|n IH]; intros i s w s' w' Hrun Hs.
  - inversion Hrun; subst. exact Hs.
  - simpl in Hrun. apply bind_Ret_inv in Hrun as (s1 & w1 & Hb & Hrun).
    eapply IH; [exact Hrun|]. eapply Hbody; eassumption.
Qed.

(** A loop of stores into the cells of a slice returns a slice of the
    same length. *)
Lemma for_upto_length {A} (body : nat -> list A -> M W (list A)) n :
  (forall i k w k' w', body i k w = Ret k' w' -> length k' = length k) ->
  forall k w k' w', for_upto n body k w = Ret k' w' -> length k' = length k.
Proof.
  intros Hbody k w k' w' Hrun.
  apply (for_range_Ret_inv (fun s => length s = length k) body) in Hrun;
    [exact Hrun| |reflexivity].
  intros i s w0 s' w0' Hb Hs. rewrite <- Hs. eapply Hbody. exact Hb.
Qed.

(** A filling loop panics at the first cell whose pass panics. *)
Lemma for_range_fill_Crash {A} (v : nat -> A)
    (body : nat -> list A -> M W (list A)) (n j : nat) :
  (forall i (k : list A) w, i < j -> length k = n ->
      body i k w = Ret (<[i := v i]> k) w) ->
  (forall (k : list A) w, length k = n -> body j k w = Crash w) ->
  forall m i (k : list A) w, i <= j < i + m -> length k = n ->
    for_range m i body k w = Crash w.
Proof.
  intros Hlt Hj. induction m as [|m IH]; intros i k w Hi Hk; [lia|].
  simpl. destruct (decide (i = j)) as [->|Hne].
  - apply bind_Crash. apply Hj. exact Hk.
  - erewrite bind_Ret by (apply Hlt; [lia|exact Hk]).
    apply IH; [lia|]. rewrite length_insert. exact Hk.
Qed.
End LoopInversion.

(** Inversion of a returning sequence of index expressions, stores and
    calls. *)
Ltac inv_ret H :=
  repeat first
    [ apply bind_Ret_inv in H as (? & ? & ? & H)
    | match type of H with
      | (let '(_, _) := ?x in _) _ = Ret _ _ => destruct x
      | match ?e with Some _ => _ | None => _ end _ = Ret _ _ =>
          destruct e
      end ].

Section StepDimension.
Context {F : Type} `{Float64Ops F} {W : Type}.

Ltac loop_length :=
  let Hl := fresh in let Hb := fresh in
  intros Hl; eapply for_upto_length; [|exact Hl];
  intros ? ? ? ? ? Hb; inv_ret Hb;
  apply store_Ret_inv in Hb as (-> & _ & _); apply length_insert.

Lemma scale_loop_length n h (slope k k' : list F) (w w' : W) :
  scale_loop n h slope k w = Ret k' w' -> length k' = length k.
Proof. unfold scale_loop. loop_length. Qed.

Lemma half_loop_length n (Xn k Xm Xm' : list F) (w w' : W) :
  half_loop n Xn k Xm w = Ret Xm' w' -> length Xm' = length Xm.
Proof. unfold half_loop. loop_length. Qed.

Lemma full_loop_length n (Xn k Xm Xm' : list F) (w w' : W) :
  full_loop n Xn k Xm w = Ret Xm' w' -> length Xm' = length Xm.
Proof. unfold full_loop. loop_length. Qed.

Lemma average_loop_length n (Xn k1 k2 k3 k4 Xs Xs' : list F) (w w' : W) :
  average_loop n Xn k1 k2 k3 k4 Xs w = Ret Xs' w' -> length Xs' = length Xs.
Proof. unfold average_loop. loop_length. Qed.

Lemma euler_loop_length n h (Xn slope Xs Xs' : list F) (w w' : W) :
  euler_loop n h Xn slope Xs w = Ret Xs' w' -> length Xs' = length Xs.
Proof. unfold euler_loop. loop_length. Qed.

Lemma midpoint_loop_length n h (Xn slope Xm Xm' : list F) (w w' : W) :
  midpoint_loop n h Xn slope Xm w = Ret Xm' w' -> length Xm' = length Xm.
Proof. unfold midpoint_loop. loop_length. Qed.

Lemma eulerIteration_length (f : Function F W) tn Xn h w Xs err w' :
  eulerIteration f tn Xn h w = Ret (Xs, err) w' ->
  match err with None => length Xs = length Xn | Some _ => Xs = [] end.
Proof.
  unfold eulerIteration. intros Hrun. inv_ret Hrun.
  - inversion Hrun; subst. reflexivity.
  - inversion Hrun; subst.
    match goal with
    | Hl : euler_loop _ _ _ _ _ _ = _ |- _ =>
        apply euler_loop_length in Hl; rewrite Hl; apply length_make
    end.
Qed.

Lemma rk2Iteration_length (f : Function F W) tn Xn h w Xs err w' :
  rk2Iteration f tn Xn h w = Ret (Xs, err) w' ->
  match err with None => length Xs = length Xn | Some _ => Xs = [] end.
Proof.
  unfold rk2Iteration. intros Hrun. inv_ret Hrun;
    inversion Hrun; subst; try reflexivity.
  match goal with
  | Hl : euler_loop _ _ _ _ _ _ = _ |- _ =>
      apply euler_loop_length in Hl; rewrite Hl; apply length_make
  end.
Qed.

Lemma rk4Iteration_length (f : Function F W) tn Xn h w Xs err w' :
  rk4Iteration f tn Xn h w = Ret (Xs, err) w' ->
  match err with None => length Xs = length Xn | Some _ => Xs = [] end.
Proof.
  unfold rk4Iteration. intros Hrun. inv_ret Hrun;
    inversion Hrun; subst; try reflexivity.
  match goal with
  | Hl : average_loop _ _ _ _ _ _ _ _ = _ |- _ =>
      apply average_loop_length in Hl; rewrite Hl; apply length_make
  end.
Qed.
End StepDimension.

Section StepFormulas.
Context {F : Type} `{Float64Ops F} {W : Type}.

(** A loop [Xm[i] = g(Xn[i], k[i])] panics when [k] is shorter than
    [Xn]. *)
Lemma zip_loop_Crash (g : F -> F -> F) Xn (k Xm : list F) (w : W) :
  length k < length Xn -> length Xm = length Xn ->
  for_upto (length Xn) (fun i Xm =>
    do x <- index Xn i ;; do ki <- index k i ;; store Xm i (g x ki)) Xm w
  = Crash w.
Proof.
  intros Hk HXm. unfold for_upto.
  apply (for_range_fill_Crash
    (fun i => match Xn !! i, k !! i with
              | Some x, Some ki => g x ki
              | _, _ => flit 0
              end) _ (length Xn) (length k)); [| |lia|exact HXm].
  - intros i Xm' w' Hi HXm'.
    destruct (lookup_lt_is_Some_2 Xn i ltac:(lia)) as [x Hx].
    destruct (lookup_lt_is_Some_2 k i ltac:(lia)) as [ki Hki].
    rewrite Hx, Hki.
    erewrite bind_Ret by (apply index_Some; eassumption).
    erewrite bind_Ret by (apply index_Some; eassumption).
    apply store_lt. lia.
  - intros Xm' w' HXm'.
    destruct (lookup_lt_is_Some_2 Xn (length k) Hk) as [x Hx].
    erewrite bind_Ret by (apply index_Some; eassumption).
    apply bind_Crash. apply index_None. lia.
Qed.

(** The loop [k[i] = h * slope[i]] panics when [slope] is shorter than
    the number of passes. *)
Lemma scale_loop_Crash n h (slope k : list F) (w : W) :
  length slope < n -> length k = n ->
  scale_loop n h slope k w = Crash w.
Proof.
  intros Hs Hk. unfold scale_loop, for_upto.
  apply (for_range_fill_Crash
    (fun i => match slope !! i with Some s => fmul h s | None => flit 0 end)
    _ n (length slope)); [| |lia|exact Hk].
  - intros i k' w' Hi Hk'.
    destruct (lookup_lt_is_Some_2 slope i Hi) as [s Hsl].
    rewrite Hsl. erewrite bind_Ret by (apply index_Some; eassumption).
    apply store_lt. lia.
  - intros k' w' Hk'. apply bind_Crash. apply index_None. lia.
Qed.

(** The loop [Xs[i] = Xn[i] + h*slope[i]]. *)
Lemma euler_loop_spec h Xn (slope Xs : list F) (w : W) :
  length Xn <= length slope -> length Xs = length Xn ->
  euler_loop (length Xn) h Xn slope Xs w = Ret (vadd Xn (vscale h slope)) w.
Proof.
  intros Hs HXs. unfold euler_loop.
  rewrite (zip_loop_spec (fun x s => fadd x (fmul h s))) by done.
  f_equal. unfold vadd, vscale. apply list_eq; intros i.
  rewrite !lookup_zip_with, !list_lookup_fmap.
  destruct (Xn !! i), (slope !! i); reflexivity.
Qed.

(** X1.  The Euler step: when [f] returns at [(tn, Xn)] a slope [s] with
    at least as many components as [Xn], the step returns [Xn + h·s],
    component by component, with a [nil] error, and leaves the memory as
    [f] left it. *)
Theorem eulerIteration_spec (f : Function F W) tn Xn h w s w1 :
  f tn Xn w = Ret (s, None) w1 ->
  length Xn <= length s ->
  eulerIteration f tn Xn h w = Ret (vadd Xn (vscale h s), None) w1.
Proof.
  intros Hf Hs. unfold eulerIteration.
  erewrite bind_Ret by exact Hf. cbv beta iota zeta.
  erewrite bind_Ret by (apply euler_loop_spec; [exact Hs|apply length_make]).
  reflexivity.
Qed.

(** X2.  The RK2 step is the midpoint rule: with [s1] the slope at
    [(tn, Xn)] and [s2] the slope at [(tn + h/2, Xn + (h·s1)/2)], the step
    returns [Xn + h·s2]; [f] is called at these two points, in this order. *)
Theorem rk2Iteration_spec (f : Function F W) tn Xn h w s1 w1 s2 w2 :
  f tn Xn w = Ret (s1, None) w1 ->
  length Xn <= length s1 ->
  f (fadd tn (fdiv h (flit 2))) (vadd Xn (vdiv (vscale h s1) (flit 2))) w1
  = Ret (s2, None) w2 ->
  length Xn <= length s2 ->
  rk2Iteration f tn Xn h w = Ret (vadd Xn (vscale h s2), None) w2.
Proof.
  intros Hf1 L1 Hf2 L2. unfold rk2Iteration.
  erewrite bind_Ret by exact Hf1. cbv beta iota zeta.
  erewrite bind_Ret by (apply midpoint_loop_spec; [done | apply length_make]).
  erewrite bind_Ret by exact Hf2. cbv beta iota.
  erewrite bind_Ret by (apply euler_loop_spec; [done | apply length_make]).
  reflexivity.
Qed.

Lemma package_step_length (step : Iteration F W) f tn Xn h w Xs err w' :
  step = eulerIteration \/ step = rk2Iteration \/ step = rk4Iteration ->
  step f tn Xn h w = Ret (Xs, err) w' ->
  match err with None => length Xs = length Xn | Some _ => Xs = [] end.
Proof.
  intros [-> | [-> | ->]].
  - apply eulerIteration_length.
  - apply rk2Iteration_length.
  - apply rk4Iteration_length.
Qed.

(** X3.  The three step algorithms of the package keep the dimension of
    the state: a step that returns a [nil] error returns a slice of the
    length of [Xn], whatever [f] is; a step that returns an error returns
    a [nil] slice. *)
Theorem step_keeps_dimension (step : Iteration F W) f tn Xn h w Xs err w' :
  step = eulerIteration \/ step = rk2Iteration \/ step = rk4Iteration ->
  step f tn Xn h w = Ret (Xs, err) w' ->
  match err with None => length Xs = length Xn | Some _ => Xs = [] end.
Proof. apply package_step_length. Qed.

Lemma package_step_short_slope (step : Iteration F W) f tn Xn h w s w1 :
  step = eulerIteration \/ step = rk2Iteration \/ step = rk4Iteration ->
  f tn Xn w = Ret (s, None) w1 ->
  length s < length Xn ->
  step f tn Xn h w = Crash w1.
Proof.
  intros [-> | [-> | ->]] Hf Hs.
  - unfold eulerIteration. erewrite bind_Ret by exact Hf. cbv beta iota zeta.
    apply bind_Crash. unfold euler_loop.
    apply zip_loop_Crash; [exact Hs|apply length_make].
  - unfold rk2Iteration. erewrite bind_Ret by exact Hf. cbv beta iota zeta.
    apply bind_Crash. unfold midpoint_loop.
    apply zip_loop_Crash; [exact Hs|apply length_make].
  - unfold rk4Iteration. erewrite bind_Ret by exact Hf. cbv beta iota zeta.
    apply bind_Crash.
    apply scale_loop_Crash; [exact Hs|apply length_make].
Qed.

(** X4.  When [f] returns, with a [nil] error, fewer slopes than the
    state has components, each of the three step algorithms panics (index
    out of range) in its first loop, in the memory [f] left. *)
Theorem step_short_slope_panics (step : Iteration F W) f tn Xn h w s w1 :
  step = eulerIteration \/ step = rk2Iteration \/ step = rk4Iteration ->
  f tn Xn w = Ret (s, None) w1 ->
  length s < length Xn ->
  step f tn Xn h w = Crash w1.
Proof. apply package_step_short_slope. Qed.
End StepFormulas.

(* ------------------------------------------------------------------ *)
(** ** Further properties of [Solve] *)

Section SolveRuns.
Context {F : Type} `{Float64Ops F} {W : Type}.

(** What each pass keeps of the current state, committed passes keep. *)
Lemma commits_invariant (solver : StandardSolver F W) f h c r
    (I : nat -> F -> list F -> Prop) s l s' :
  (forall k tm Xm w Xn w1,
      I k tm Xm ->
      iteration solver f tm Xm h w = Ret (Xn, None) w1 ->
      I (S k) (fadd tm h) Xn) ->
  commits solver f h c r s l s' ->
  forall k, I k s.1.1 s.1.2 ->
  I (k + length l) s'.1.1 s'.1.2 /\
  forall i d, l !! i = Some d -> I (k + S i) (time d) (state d).
Proof.
  intros Hstep.
  induction 1 as [s|tm Xm w Xn w1 w2 w3 l s' Hit Hrec Hc Hl IH];
    intros k Hk.
  - rewrite Nat.add_0_r. split; [exact Hk|]. intros i d Hd.
    rewrite lookup_nil in Hd. discriminate.
  - simpl in Hk.
    pose proof (Hstep k tm Xm w Xn w1 Hk Hit) as Hk'.
    destruct (IH (S k) Hk') as [Hend Hall].
    split.
    + simpl length. rewrite Nat.add_succ_r. exact Hend.
    + intros [|i] d Hd.
      * inversion Hd; subst d. simpl. rewrite Nat.add_1_r. exact Hk'.
      * simpl in Hd. rewrite Nat.add_succ_r. apply (Hall i d Hd).
Qed.

(** The loop does not return while the steps succeed and the controller
    answers [(false, nil)]. *)
Lemma solve_loop_Fuel (solver : StandardSolver F W) f h c r
    (I : list F -> Prop) :
  (forall tm Xm w, I Xm ->
      exists Xn w1,
        iteration solver f tm Xm h w = Ret (Xn, None) w1 /\ I Xn) ->
  (forall t X w, exists w1, Record r t X w = Ret tt w1) ->
  (forall t X w, exists w1, c t X w = Ret (false, None) w1) ->
  forall fuel tm Xm nb w, I Xm ->
  exists w', solve_loop fuel solver f h c r tm Xm nb w = Fuel w'.
Proof.
  intros Hstep Hrec Hc.
  induction fuel as [|fuel IH]; intros tm Xm nb w HI.
  - exists w. reflexivity.
  - destruct (Hstep tm Xm w HI) as (Xn & w1 & Hit & HI').
    destruct (Hrec (fadd tm h) Xn w1) as (w2 & Hr).
    destruct (Hc (fadd tm h) Xn w2) as (w3 & Hc3).
    cbn [solve_loop].
    erewrite bind_Ret by exact Hit. cbv beta iota zeta.
    erewrite bind_Ret by exact Hr.
    erewrite bind_Ret by exact Hc3. cbv beta iota.
    apply IH. exact HI'.
Qed.

(** X5.  [Solve] does not return when no step fails and the controller
    never stops the run: on states of the dimension of [X0] the step
    returns a state of that dimension with a [nil] error, the recorder
    returns and the controller answers [(false, nil)]; then, whatever the
    budget of passes, the run is still in its loop when the budget is
    spent. *)
Theorem Solve_never_returns fuel (solver : StandardSolver F W) f t0 X0 h c r
    w :
  (forall tm Xm w,
      length Xm = length X0 ->
      exists Xn w1,
        iteration solver f tm Xm h w = Ret (Xn, None) w1 /\
        length Xn = length X0) ->
  (forall t X w, exists w1, Record (recorder_or_none r) t X w = Ret tt w1) ->
  (forall t X w, exists w1, c t X w = Ret (false, None) w1) ->
  exists w', Solve fuel solver (Some f) t0 X0 h c r w = Fuel w'.
Proof.
  intros Hstep Hrec Hc. unfold Solve. fold (recorder_or_none r).
  destruct (Hrec t0 X0 w) as (w1 & Hr).
  erewrite bind_Ret by exact Hr.
  apply (solve_loop_Fuel solver f h c (recorder_or_none r)
           (fun Xm => length Xm = length X0)); auto.
Qed.

(** X6.  When the controller returns an error on the sample computed
    after [length l] committed passes, [Solve] returns that error at once
    with the count of the committed passes, whatever the stop flag that
    comes with the error; the solver is unchanged.  The sample the
    controller saw has been recorded already: an accumulating recorder
    holds the initial sample, the committed samples and that sample. *)
Theorem Solve_controller_error fuel (solver : StandardSolver F W)
    f t0 X0 h c r w w1 l tk Xk wk Xn w2 w3 stop e w' :
  Record (recorder_or_none r) t0 X0 w = Ret tt w1 ->
  commits solver f h c (recorder_or_none r) (t0, X0, w1) l (tk, Xk, wk) ->
  iteration solver f tk Xk h wk = Ret (Xn, None) w2 ->
  Record (recorder_or_none r) (fadd tk h) Xn w2 = Ret tt w3 ->
  c (fadd tk h) Xn w3 = Ret (stop, Some e) w' ->
  length l < fuel ->
  Solve fuel solver (Some f) t0 X0 h c r w
  = Ret (solver, (count_after (length l), Some e)) w' /\
  (forall get set,
      r = Some (RecorderTimeSeries get set) ->
      (forall ts w, get (set ts w) = ts) ->
      (forall tm Xm, preserves get (iteration solver f tm Xm h)) ->
      (forall t X, preserves get (c t X)) ->
      get w'
      = get w ++ {| time := t0; state := X0 |}
                 :: l ++ [{| time := fadd tk h; state := Xn |}]).
Proof.
  intros Hrec Hl Hit Hrec' Hc Hfuel. split.
  - apply (Solve_Ret_intro fuel solver f t0 X0 h c r w w1 l tk Xk wk
             (Some e) w' Hrec Hl); [|exact Hfuel].
    eapply last_pass_control_error; eassumption.
  - intros get set -> Hlens Hfit Hfc. simpl in Hrec, Hl, Hrec'.
    pose proof (Hfc (fadd tk h) Xn w3) as Hw'. rewrite Hc in Hw'.
    simpl in Hw'. rewrite Hw'.
    inversion Hrec'; subst w3. rewrite Hlens.
    pose proof (Hfit tk Xk wk) as Hw2. rewrite Hit in Hw2. simpl in Hw2.
    rewrite Hw2.
    apply (commits_series solver f h c get set) in Hl; [|done..].
    simpl in Hl. rewrite Hl.
    inversion Hrec; subst w1. rewrite Hlens.
    rewrite <- !app_assoc. reflexivity.
Qed.

(** X7.  After a run of [Solve] that returns a [nil] error, the series of
    an accumulating recorder is the series it held before, the initial
    sample, one sample per iteration counted and the sample on which the
    controller stopped the run.  [Result()] is the sample before that
    last one: the time of the last sample is [Result().t + h]. *)
Theorem Solve_success_series fuel (solver : StandardSolver F W)
    f t0 X0 h c (get : W -> TimeSeries F) set w s' n w' :
  (forall ts w, get (set ts w) = ts) ->
  (forall tm Xm, preserves get (iteration solver f tm Xm h)) ->
  (forall t X, preserves get (c t X)) ->
  Solve fuel solver (Some f) t0 X0 h c (Some (RecorderTimeSeries get set)) w
  = Ret (s', (n, None)) w' ->
  exists l dlast,
    get w' = get w ++ {| time := t0; state := X0 |} :: l ++ [dlast] /\
    n = count_after (length l) /\
    last ({| time := t0; state := X0 |} :: l)
    = Some {| time := t s'; state := X s' |} /\
    time dlast = fadd (t s') h.
Proof.
  intros Hlens Hfit Hfc Hrun.
  apply Solve_Ret_inv in Hrun
    as [(Hf & _) | (f' & w1 & l & tk & Xk & wk & Hf & Hrec & Hl & _ & Hlast
                    & -> & ->)];
    [discriminate|].
  injection Hf as <-. simpl in Hrec, Hl, Hlast.
  inversion Hlast as [Xn w2 w3 w4 Hit Hrec' Hc| |]; subst.
  exists l, {| time := fadd tk h; state := Xn |}.
  split; [|split; [reflexivity|split; [|reflexivity]]].
  - pose proof (Hfc (fadd tk h) Xn w3) as Hw'. rewrite Hc in Hw'.
    simpl in Hw'. rewrite Hw'.
    inversion Hrec'; subst w3. rewrite Hlens.
    pose proof (Hfit tk Xk wk) as Hw2. rewrite Hit in Hw2. simpl in Hw2.
    rewrite Hw2.
    apply (commits_series solver f h c get set) in Hl; [|done..].
    simpl in Hl. rewrite Hl.
    inversion Hrec; subst w1. rewrite Hlens.
    rewrite <- !app_assoc. reflexivity.
  - apply commits_last in Hl. simpl in Hl. simpl.
    rewrite last_cons. destruct (last l) as [d|]; simpl in Hl.
    + inversion Hl; subst. destruct d; reflexivity.
    + inversion Hl; subst. reflexivity.
Qed.

(** Whatever the way a run returns, it has added to the series of an
    accumulating recorder the initial sample and then others; the solver
    keeps its step algorithm. *)
Lemma Solve_Ret_series fuel (solver : StandardSolver F W)
    f t0 X0 h c (get : W -> TimeSeries F) set w s' n err w' :
  (forall ts w, get (set ts w) = ts) ->
  (forall tm Xm, preserves get (iteration solver f tm Xm h)) ->
  (forall t X, preserves get (c t X)) ->
  Solve fuel solver (Some f) t0 X0 h c (Some (RecorderTimeSeries get set)) w
  = Ret (s', (n, err)) w' ->
  (exists l, get w' = get w ++ {| time := t0; state := X0 |} :: l) /\
  iteration s' = iteration solver.
Proof.
  intros Hlens Hfit Hfc Hrun.
  apply Solve_Ret_inv in Hrun
    as [(Hfo & _) | (f' & w1 & l & tk & Xk & wk & Hfo & Hrec & Hl & _ & Hlast
                     & -> & ->)];
    [discriminate|].
  injection Hfo as <-. simpl in Hrec, Hl, Hlast.
  split; [|destruct err; reflexivity].
  apply (commits_series solver f h c get set) in Hl; [|done..].
  simpl in Hl. inversion Hrec; subst w1. rewrite Hlens in Hl.
  inversion Hlast as [Xn w2 w3 w4 Hit Hrec' Hc
                     |Xn e w4 Hit
                     |Xn w2 w3 stop e w4 Hit Hrec' Hc]; subst.
  - exists (l ++ [{| time := fadd tk h; state := Xn |}]).
    pose proof (Hfc (fadd tk h) Xn w3) as Hw'. rewrite Hc in Hw'.
    simpl in Hw'. rewrite Hw'.
    inversion Hrec'; subst w3. rewrite Hlens.
    pose proof (Hfit tk Xk wk) as Hw2. rewrite Hit in Hw2. simpl in Hw2.
    rewrite Hw2, Hl, <- !app_assoc. reflexivity.
  - exists l.
    pose proof (Hfit tk Xk wk) as Hw2. rewrite Hit in Hw2. simpl in Hw2.
    rewrite Hw2, Hl, <- !app_assoc. reflexivity.
  - exists (l ++ [{| time := fadd tk h; state := Xn |}]).
    pose proof (Hfc (fadd tk h) Xn w3) as Hw'. rewrite Hc in Hw'.
    simpl in Hw'. rewrite Hw'.
    inversion Hrec'; subst w3. rewrite Hlens.
    pose proof (Hfit tk Xk wk) as Hw2. rewrite Hit in Hw2. simpl in Hw2.
    rewrite Hw2, Hl, <- !app_assoc. reflexivity.
Qed.
End SolveRuns.

Section SolveSamples.
Context {F : Type} `{Float64Ops F} {W : Type}.

Lemma package_step_frame {V} (get : W -> V) (step : Iteration F W) f tn Xn h :
  step = eulerIteration \/ step = rk2Iteration \/ step = rk4Iteration ->
  (forall t X, preserves get (f t X)) ->
  preserves get (step f tn Xn h).
Proof.
  intros [-> | [-> | ->]] Hf.
  - apply preserves_eulerIteration, Hf.
  - apply preserves_rk2Iteration, Hf.
  - apply preserves_rk4Iteration, Hf.
Qed.

(** What the initial state has and each step keeps, [I k] for the state
    after [k] steps, holds of every sample that a run adds to the series
    of an accumulating recorder, however the run ends, and of the state
    that the solver holds after a [nil] error. *)
Lemma Solve_Ret_samples fuel (solver : StandardSolver F W)
    f t0 X0 h c (get : W -> TimeSeries F) set
    (I : nat -> F -> list F -> Prop) w s' n err w' :
  (forall ts w, get (set ts w) = ts) ->
  (forall tm Xm, preserves get (iteration solver f tm Xm h)) ->
  (forall t X, preserves get (c t X)) ->
  I 0 t0 X0 ->
  (forall k tm Xm w Xn w1,
      I k tm Xm ->
      iteration solver f tm Xm h w = Ret (Xn, None) w1 ->
      I (S k) (fadd tm h) Xn) ->
  Solve fuel solver (Some f) t0 X0 h c (Some (RecorderTimeSeries get set)) w
  = Ret (s', (n, err)) w' ->
  exists l,
    get w' = get w ++ l /\
    (forall i d, l !! i = Some d -> I i (time d) (state d)) /\
    (err = None ->
     exists k, n = count_after k /\ S (S k) = length l /\ I k (t s') (X s')).
Proof.
  intros Hlens Hfit Hfc H0 Hstep Hrun.
  apply Solve_Ret_inv in Hrun
    as [(Hfo & _) | (f' & w1 & l & tk & Xk & wk & Hfo & Hrec & Hl & _ & Hlast
                     & -> & ->)];
    [discriminate|].
  injection Hfo as <-. simpl in Hrec, Hl, Hlast.
  destruct (commits_invariant solver f h c _ I _ _ _ Hstep Hl 0 H0)
    as [Hend Hall].
  simpl in Hend.
  assert (Hhead : forall i d,
             ({| time := t0; state := X0 |} :: l) !! i = Some d ->
             I i (time d) (state d)).
  { intros [|i] d Hd; [inversion Hd; subst d; exact H0|].
    exact (Hall i d Hd). }
  assert (Hsnoc : forall Xn,
             iteration solver f tk Xk h wk = Ret (Xn, None) (world_of
               (iteration solver f tk Xk h wk)) ->
             forall i d,
             ({| time := t0; state := X0 |}
              :: l ++ [{| time := fadd tk h; state := Xn |}]) !! i = Some d ->
             I i (time d) (state d)).
  { intros Xn Hit i d Hd.
    change ((({| time := t0; state := X0 |} :: l)
             ++ [{| time := fadd tk h; state := Xn |}]) !! i = Some d) in Hd.
    apply lookup_app_Some in Hd as [Hd|[Hi Hd]]; [exact (Hhead i d Hd)|].
    apply list_lookup_singleton_Some in Hd as [Hi' <-].
    simpl in Hi, Hi'. replace i with (S (length l)) by lia.
    apply (Hstep (length l) tk Xk wk Xn _ Hend Hit). }
  apply (commits_series solver f h c get set) in Hl; [|done..].
  simpl in Hl. inversion Hrec; subst w1. rewrite Hlens in Hl.
  inversion Hlast as [Xn w2 w3 w4 Hit Hrec' Hc
                     |Xn e w4 Hit
                     |Xn w2 w3 stop e w4 Hit Hrec' Hc]; subst.
  - exists ({| time := t0; state := X0 |}
            :: l ++ [{| time := fadd tk h; state := Xn |}]).
    split; [|split].
    + pose proof (Hfc (fadd tk h) Xn w3) as Hw'. rewrite Hc in Hw'.
      simpl in Hw'. rewrite Hw'.
      inversion Hrec'; subst w3. rewrite Hlens.
      pose proof (Hfit tk Xk wk) as Hw2. rewrite Hit in Hw2. simpl in Hw2.
      rewrite Hw2, Hl, <- !app_assoc. reflexivity.
    + apply Hsnoc. rewrite Hit. reflexivity.
    + intros _. exists (length l). split; [reflexivity|].
      split; [|exact Hend]. simpl. rewrite length_app. simpl. lia.
  - exists ({| time := t0; state := X0 |} :: l).
    split; [|split; [exact Hhead|discriminate]].
    pose proof (Hfit tk Xk wk) as Hw2. rewrite Hit in Hw2. simpl in Hw2.
    rewrite Hw2, Hl, <- !app_assoc. reflexivity.
  - exists ({| time := t0; state := X0 |}
            :: l ++ [{| time := fadd tk h; state := Xn |}]).
    split; [|split; [|discriminate]].
    + pose proof (Hfc (fadd tk h) Xn w3) as Hw'. rewrite Hc in Hw'.
      simpl in Hw'. rewrite Hw'.
      inversion Hrec'; subst w3. rewrite Hlens.
      pose proof (Hfit tk Xk wk) as Hw2. rewrite Hit in Hw2. simpl in Hw2.
      rewrite Hw2, Hl, <- !app_assoc. reflexivity.
    + apply Hsnoc. rewrite Hit. reflexivity.
Qed.

(** X8.  With a solver of the package, a run of [Solve] keeps the
    dimension of the state: every sample that the run adds to the series
    of an accumulating recorder has as many components as [X0], whatever
    [f] and the controller are and however the run ends, and so has the
    state that [Result()] gives after a [nil] error. *)
Theorem Solve_series_dimension fuel (solver : StandardSolver F W)
    f t0 X0 h c (get : W -> TimeSeries F) set w s' n err w' :
  iteration solver = eulerIteration \/ iteration solver = rk2Iteration \/
  iteration solver = rk4Iteration ->
  (forall ts w, get (set ts w) = ts) ->
  (forall t X, preserves get (f t X)) ->
  (forall t X, preserves get (c t X)) ->
  Solve fuel solver (Some f) t0 X0 h c (Some (RecorderTimeSeries get set)) w
  = Ret (s', (n, err)) w' ->
  exists l,
    get w' = get w ++ l /\
    Forall (fun d => length (state d) = length X0) l /\
    (err = None -> length (X s') = length X0).
Proof.
  intros Hpkg Hlens Hf Hfc Hrun.
  apply (Solve_Ret_samples fuel solver f t0 X0 h c get set
           (fun _ _ Xm => length Xm = length X0)) in Hrun
    as (l & Hser & Hall & Hres); [|done| |done|done|].
  - exists l. split; [exact Hser|]. split.
    + apply Forall_lookup_2. exact Hall.
    + intros He. destruct (Hres He) as (k & _ & _ & HX). exact HX.
  - intros tm Xm. apply package_step_frame; [exact Hpkg|exact Hf].
  - intros k tm Xm w0 Xn w0' HI Hit.
    apply (package_step_length _ _ _ _ _ _ _ _ _ Hpkg) in Hit.
    simpl in Hit. congruence.
Qed.

(** X9.  The times of a run are made by repeated addition: the sample
    of index [i] that a run adds to the series of an accumulating
    recorder has the time [t0] with [h] added [i] times, in the arithmetic
    of the numbers, however the run ends; after a [nil] error and [k]
    iterations counted, [Result()] has the time [t0] with [h] added [k]
    times and the run has added [k + 2] samples. *)
Theorem Solve_sample_times fuel (solver : StandardSolver F W)
    f t0 X0 h c (get : W -> TimeSeries F) set w s' n err w' :
  (forall ts w, get (set ts w) = ts) ->
  (forall tm Xm, preserves get (iteration solver f tm Xm h)) ->
  (forall t X, preserves get (c t X)) ->
  Solve fuel solver (Some f) t0 X0 h c (Some (RecorderTimeSeries get set)) w
  = Ret (s', (n, err)) w' ->
  exists l,
    get w' = get w ++ l /\
    (forall i d, l !! i = Some d ->
                 time d = Nat.iter i (fun tm => fadd tm h) t0) /\
    (err = None ->
     exists k, n = count_after k /\ length l = k + 2 /\
               t s' = Nat.iter k (fun tm => fadd tm h) t0).
Proof.
  intros Hlens Hfit Hfc Hrun.
  apply (Solve_Ret_samples fuel solver f t0 X0 h c get set
           (fun k tm _ => tm = Nat.iter k (fun tm => fadd tm h) t0)) in Hrun
    as (l & Hser & Hall & Hres); [|done..| |].
  - exists l. split; [exact Hser|]. split; [exact Hall|].
    intros He. destruct (Hres He) as (k & Hn & Hlen & Ht).
    exists k. split; [exact Hn|]. split; [lia|exact Ht].
  - reflexivity.
  - intros k tm Xm w0 Xn w0' -> _. reflexivity.
Qed.
End SolveSamples.

(* ------------------------------------------------------------------ *)
(** ** Further properties of the controllers and of the recorders *)

Section AggregateFacts.
Context {F : Type} `{Float64Ops F} {W : Type}.

(** X11.  Aggregates nest: an aggregate used as the first controller of
    another aggregate behaves as the controllers of both in one list, for
    the answer, the error and the memory, panics included. *)
Theorem MultiController_nested (cs1 cs2 : list (Controller F W)) t X w :
  MultiController (MultiController cs1 :: cs2) t X w
  = MultiController (cs1 ++ cs2) t X w.
Proof.
  revert w. induction cs1 as [|c cs1 IH]; intros w.
  - reflexivity.
  - specialize IH. cbn [MultiController app] in *. unfold bind at 1 2 3.
    destruct (c t X w) as [[ok [e|]] w1|w1|w1]; try reflexivity.
    destruct ok; [reflexivity|].
    specialize (IH w1). unfold bind at 1 in IH. exact IH.
Qed.
End AggregateFacts.

Section LoggerFacts.
Context {F : Type} `{Float64Ops F} {W : Type}.

(** X12.  [RecorderLogger] prints [X[0]] and [X[1]]: with an initial state
    of fewer than two components, [Solve] panics (index out of range) when
    it records the initial state, before any call of [f], of the
    controller or of the printing function. *)
Theorem RecorderLogger_short_state_panics fuel (solver : StandardSolver F W)
    f t0 X0 h c fmt_Printf w :
  length X0 < 2 ->
  Solve fuel solver (Some f) t0 X0 h c (Some (RecorderLogger fmt_Printf)) w
  = Crash w.
Proof.
  intros HX0. destruct X0 as [|x0 [|x1 X0]]; [reflexivity..|].
  simpl in HX0. lia.
Qed.
End LoggerFacts.

(* ------------------------------------------------------------------ *)
(** ** The time series: copies and export *)

Section IndexLoops.
Context {W : Type}.

Lemma fmap_lookup_seq {A} (d : A) (l : list A) :
  (fun i => default d (l !! i)) <$> seq 0 (length l) = l.
Proof.
  apply list_eq; intros i. rewrite list_lookup_fmap.
  destruct (decide (i < length l)) as [Hi|Hi].
  - rewrite lookup_seq_lt by lia. simpl.
    destruct (lookup_lt_is_Some_2 l i Hi) as [x ->]. reflexivity.
  - rewrite lookup_seq_ge by lia. rewrite lookup_ge_None_2 by lia.
    reflexivity.
Qed.

(** A loop that reads the cells of a slice in order and folds them into
    an accumulator. *)
Lemma for_range_foldl {A St} (g : St -> A -> St) (l2 : list A) :
  forall (l1 : list A) (s : St) (w : W),
  for_range (length l2) (length l1)
    (fun j s => do x <- index (l1 ++ l2) j ;; ret (g s x)) s w
  = Ret (foldl g s l2) w.
Proof.
  induction l2 as [|x l2 IH]; intros l1 s w; [reflexivity|].
  simpl. erewrite bind_Ret.
  2:{ erewrite bind_Ret; [reflexivity|].
      apply index_Some. apply list_lookup_middle. reflexivity. }
  specialize (IH (l1 ++ [x]) (g s x) w).
  rewrite length_app, Nat.add_1_r, <- app_assoc in IH. exact IH.
Qed.

Lemma for_upto_foldl {A St} (g : St -> A -> St) (l : list A) (s : St)
    (w : W) :
  for_upto (length l) (fun j s => do x <- index l j ;; ret (g s x)) s w
  = Ret (foldl g s l) w.
Proof. apply (for_range_foldl g l []). Qed.
End IndexLoops.

Section CloneFacts.
Context {F : Type} `{Float64Ops F} {W : Type}.

Lemma TimeData_Clone_eq (data : TimeData F) (w : W) :
  TimeData_Clone data w = Ret data w.
Proof.
  unfold TimeData_Clone. cbv zeta.
  erewrite bind_Ret.
  2:{ apply (for_upto_fill (fun i => default (flit 0) (state data !! i)));
        [|apply length_make].
      intros i k w' Hi Hk.
      destruct (lookup_lt_is_Some_2 (state data) i Hi) as [x Hx].
      rewrite Hx. erewrite bind_Ret by (apply index_Some; exact Hx).
      apply store_lt. lia. }
  rewrite fmap_lookup_seq. destruct data; reflexivity.
Qed.

(** X13.  [Clone] of a series returns, without a panic and without
    changing the memory, a series with the same samples in the same
    order. *)
Theorem TimeSeries_Clone_eq (series : TimeSeries F) (w : W) :
  TimeSeries_Clone series w = Ret series w.
Proof.
  unfold TimeSeries_Clone. cbv zeta.
  set (zero := {| time := flit 0; state := [] |}).
  rewrite (for_upto_fill (fun i => default zero (series !! i)));
    [|intros i k w' Hi Hk|apply length_replicate].
  - rewrite fmap_lookup_seq. reflexivity.
  - destruct (lookup_lt_is_Some_2 series i Hi) as [d Hd].
    rewrite Hd. erewrite bind_Ret by (apply index_Some; exact Hd).
    erewrite bind_Ret by apply TimeData_Clone_eq.
    apply store_lt. lia.
Qed.
End CloneFacts.

Section ExportRuns.
Context {F : Type} `{Float64Ops F} {W : Type}.
Variable File : Type.
Variable os_Create : string -> M W (File * option error).
Variable file_WriteString : File -> string -> M W unit.
Variable file_Close : File -> M W unit.
Variable log_Printf : string -> M W unit.
Variable Sprintf_4f : F -> string.
Variable Sprintf_12f : F -> string.
Variable Sprintf_v : list string -> string.

Local Abbreviation ToCSVwithNames' :=
  (ToCSVwithNames File os_Create file_WriteString file_Close log_Printf
     Sprintf_4f Sprintf_12f Sprintf_v).
Local Abbreviation ToCSV' :=
  (ToCSV File os_Create file_WriteString file_Close log_Printf
     Sprintf_4f Sprintf_12f Sprintf_v).

(** X14.  [ToCSVwithNames] checks before it writes.  On a series with a
    first sample [first], a list of names whose length differs from the
    dimension of [first] gives the error of the mismatch and nothing is
    created; when the names match and [os.Create] fails, the error of
    [os.Create] is returned and the memory is the one [os.Create] left:
    nothing is logged, written or closed. *)
Theorem ToCSVwithNames_refuses (first : TimeData F) (rest : TimeSeries F)
    (filepath : string) (names : list string) (w : W) :
  (length names <> length (state first) ->
   ToCSVwithNames' (first :: rest) filepath names w
   = Ret (Some ("the names (" +:+ Sprintf_v names +:+
                ") does not match with the state dimension")) w) /\
  (forall file e w1,
      length names = length (state first) ->
      os_Create filepath w = Ret (file, Some e) w1 ->
      ToCSVwithNames' (first :: rest) filepath names w = Ret (Some e) w1).
Proof.
  split.
  - intros Hne. unfold ToCSVwithNames. simpl.
    unfold bind at 1. simpl. rewrite decide_True by exact Hne. reflexivity.
  - intros file e w1 Heq Hc. unfold ToCSVwithNames. simpl.
    unfold bind at 1. simpl. rewrite decide_False by (intros Hne; auto).
    erewrite bind_Ret by exact Hc. reflexivity.
Qed.

(** X15.  On a series that is not empty, [ToCSV] is [ToCSVwithNames] with
    the names [x0], [x1], ... for the components of the first sample. *)
Theorem ToCSV_default_names (first : TimeData F) (rest : TimeSeries F)
    (filepath : string) (w : W) :
  ToCSV' (first :: rest) filepath w
  = ToCSVwithNames' (first :: rest) filepath
      (default_names (length (state first))) w.
Proof.
  unfold ToCSV. erewrite bind_Ret by (apply index_Some; reflexivity).
  erewrite bind_Ret; [reflexivity|].
  apply (for_upto_fill (fun j => "x" +:+ pretty j));
    [|apply length_replicate].
  intros j k w' Hj Hk. apply store_lt. lia.
Qed.

Section Written.
(** The lines written so far, as the memory shows them. *)
Variable written : W -> list string.
Variable file : File.
Hypothesis write_appends : forall line w,
  exists w', file_WriteString file line w = Ret tt w' /\
             written w' = written w ++ [line].
Hypothesis log_returns : forall msg w,
  exists w', log_Printf msg w = Ret tt w' /\ written w' = written w.
Hypothesis close_returns : forall w,
  exists w', file_Close file w = Ret tt w' /\ written w' = written w.

Lemma write_rows (l2 : TimeSeries F) : forall (l1 : TimeSeries F) (w : W),
  exists w',
    for_range (length l2) (length l1)
      (fun i _ =>
         do data <- index (l1 ++ l2) i ;;
         do line <- for_upto (length (state data)) (fun j line =>
              do x <- index (state data) j ;;
              ret (line +:+ ";" +:+ Sprintf_12f x))
              (Sprintf_4f (time data)) ;;
         file_WriteString file (line +:+ newline)) tt w
    = Ret tt w' /\
    written w' = written w ++ (csv_row Sprintf_4f Sprintf_12f <$> l2).
Proof.
  induction l2 as [|d l2 IH]; intros l1 w.
  - exists w. split; [reflexivity|]. rewrite app_nil_r. reflexivity.
  - destruct (write_appends (csv_row Sprintf_4f Sprintf_12f d) w)
      as (w1 & Hw & Hw1).
    specialize (IH (l1 ++ [d]) w1). destruct IH as (w' & Hrun & Hw').
    rewrite length_app, Nat.add_1_r, <- app_assoc in Hrun.
    exists w'. split.
    + simpl for_range. erewrite bind_Ret; [exact Hrun|].
      erewrite bind_Ret
        by (apply index_Some; apply list_lookup_middle; reflexivity).
      erewrite bind_Ret by apply for_upto_foldl.
      destruct (tt); exact Hw.
    + rewrite Hw', Hw1, <- app_assoc. reflexivity.
Qed.

(** X16.  When the names match the dimension of the first sample and
    [os.Create] gives a file, [ToCSVwithNames] returns [nil] and has
    written to the file, in this order, the header
    ["t;names[0];names[1];..."] and one line per sample of the series,
    each with the time of the sample and all the components of its own
    state. *)
Theorem ToCSVwithNames_writes (first : TimeData F) (rest : TimeSeries F)
    (filepath : string) (names : list string) (w w1 : W) :
  length names = length (state first) ->
  os_Create filepath w = Ret (file, None) w1 ->
  exists w',
    ToCSVwithNames' (first :: rest) filepath names w = Ret None w' /\
    written w'
    = written w1 ++ csv_header names
        :: (csv_row Sprintf_4f Sprintf_12f <$> first :: rest).
Proof.
  intros Hnames Hc.
  destruct (log_returns
              ("Creating the data file " +:+ filepath +:+
               " containing the time series " +:+ Sprintf_v names) w1)
    as (w2 & Hlog & Hw2).
  destruct (write_appends (csv_header names) w2) as (w3 & Hhead & Hw3).
  destruct (write_rows (first :: rest) [] w3) as (w4 & Hrows & Hw4).
  destruct (close_returns w4) as (w5 & Hclose & Hw5).
  exists w5. split.
  - unfold ToCSVwithNames.
    rewrite decide_False by (simpl; lia).
    erewrite bind_Ret by (apply index_Some; reflexivity).
    rewrite decide_False by (intros Hne; auto).
    erewrite bind_Ret by exact Hc. cbv beta iota.
    erewrite bind_Ret by exact Hlog.
    erewrite bind_Ret by apply for_upto_foldl.
    erewrite bind_Ret by exact Hhead.
    unfold for_upto. erewrite bind_Ret by exact Hrows.
    erewrite bind_Ret by exact Hclose. reflexivity.
  - rewrite Hw5, Hw4, Hw3, Hw2, <- app_assoc. reflexivity.
Qed.
End Written.
End ExportRuns.

(* ------------------------------------------------------------------ *)
(** ** The systems *)

Section CascadeFacts.
Context {F : Type} `{Float64Ops F} {W : Type}.

Lemma CascadingWaterTank_F_cons (sys : CascadingWaterTankSystem.t F) tm x0
    (rest : list F) (w : W) :
  CascadingWaterTankSystem.F sys tm (x0 :: rest) w
  = Ret (fsub (CascadingWaterTankSystem.d sys)
              (fmul (CascadingWaterTankSystem.a sys) x0)
         :: zip_with (fun xp xi =>
                        fmul (CascadingWaterTankSystem.a sys) (fsub xp xi))
                     (x0 :: rest) rest,
         None) w.
Proof.
  unfold CascadingWaterTankSystem.F.
  set (X := x0 :: rest). set (a := CascadingWaterTankSystem.a sys).
  set (y0 := fsub _ _).
  erewrite bind_Ret by (apply index_Some; reflexivity).
  erewrite bind_Ret by (apply store_lt; rewrite length_make; simpl; lia).
  set (v := fun i => match X !! (i - 1), X !! i with
                     | Some xp, Some xi => fmul a (fsub xp xi)
                     | _, _ => flit 0
                     end).
  erewrite bind_Ret.
  2:{ apply (for_range_fill v _ (length X)).
      - intros i k w' Hi Hk.
        destruct (lookup_lt_is_Some_2 X (i - 1) ltac:(lia)) as [xp Hxp].
        destruct (lookup_lt_is_Some_2 X i Hi) as [xi Hxi].
        unfold v. rewrite Hxp, Hxi.
        erewrite bind_Ret by (apply index_Some; eassumption).
        erewrite bind_Ret by (apply index_Some; eassumption).
        apply store_lt. lia.
      - simpl. lia.
      - rewrite length_insert. apply length_make. }
  unfold ret. f_equal. f_equal.
  change (length X) with (S (length rest)).
  replace (S (length rest) - 1) with (length rest) by lia.
  unfold make. cbn [replicate insert list_insert take app]. f_equal.
  rewrite take_0, app_nil_l.
  apply list_eq; intros i.
  rewrite list_lookup_fmap, lookup_zip_with.
  destruct (decide (i < length rest)) as [Hi|Hi].
  - rewrite lookup_seq_lt by lia. simpl. unfold v.
    replace (S i - 1) with i by lia.
    change (X !! S i) with (rest !! i).
    destruct (lookup_lt_is_Some_2 rest i Hi) as [xi Hxi].
    destruct (lookup_lt_is_Some_2 X i ltac:(simpl; lia)) as [xp Hxp].
    rewrite Hxi, Hxp. reflexivity.
  - rewrite lookup_seq_ge by lia. simpl.
    rewrite (lookup_ge_None_2 rest) by lia.
    destruct (X !! i); reflexivity.
Qed.

(** X17.  The rate function of the cascade: on a state [x0, x1, ...] it
    returns [d - a·x0] for the first tank and [a·(x(i-1) - x(i))] for each
    tank after it, with a [nil] error, whatever the field [n] of the
    system is; on an empty state it panics (index out of range). *)
Theorem CascadingWaterTank_F_spec (sys : CascadingWaterTankSystem.t F) tm
    (X : list F) (w : W) :
  CascadingWaterTankSystem.F sys tm X w
  = match X with
    | [] => Crash w
    | x0 :: rest =>
        Ret (fsub (CascadingWaterTankSystem.d sys)
                  (fmul (CascadingWaterTankSystem.a sys) x0)
             :: zip_with (fun xp xi =>
                            fmul (CascadingWaterTankSystem.a sys)
                                 (fsub xp xi))
                         X rest,
             None) w
    end.
Proof.
  destruct X as [|x0 rest]; [reflexivity|apply CascadingWaterTank_F_cons].
Qed.

Lemma NewConstantX_replicate (n : Z) (h : F) (w : W) :
  (0 <= n)%Z ->
  CascadingWaterTankSystem.NewConstantX n h w = Ret (replicate (Z.to_nat n) h) w.
Proof.
  intros Hn. unfold CascadingWaterTankSystem.NewConstantX.
  rewrite decide_False by lia.
  rewrite (for_upto_fill (fun _ => h));
    [|intros i k w' Hi Hk; apply store_lt; lia|apply length_make].
  f_equal. apply list_eq; intros i. rewrite list_lookup_fmap.
  destruct (decide (i < Z.to_nat n)) as [Hi|Hi].
  - rewrite lookup_seq_lt, lookup_replicate_2 by lia. reflexivity.
  - rewrite lookup_seq_ge by lia. symmetry. apply lookup_replicate_None. lia.
Qed.

(** X18.  [NewConstantX(n, h)] returns [n] components equal to [h] when
    [n] is not negative, the empty state for 0, and panics when [n] is
    negative. *)
Theorem NewConstantX_spec (n : Z) (h : F) (w : W) :
  CascadingWaterTankSystem.NewConstantX n h w
  = if decide (n < 0)%Z then Crash w else Ret (replicate (Z.to_nat n) h) w.
Proof.
  destruct (decide (n < 0)%Z) as [Hn|Hn].
  - unfold CascadingWaterTankSystem.NewConstantX.
    rewrite decide_True by exact Hn. reflexivity.
  - apply NewConstantX_replicate. lia.
Qed.
End CascadeFacts.

(* ------------------------------------------------------------------ *)
(** ** The solver of a system *)

Section SystemSolverFacts.
Context {F : Type} `{Float64Ops F} {W : Type}.
Variable File : Type.
Variable os_Create : string -> M W (File * option error).
Variable file_WriteString : File -> string -> M W unit.
Variable file_Close : File -> M W unit.
Variable log_Printf : string -> M W unit.
Variable Sprintf_4f : F -> string.
Variable Sprintf_12f : F -> string.
Variable Sprintf_v : list string -> string.

(** X22.  [SystemSolver.Solve] never resets the series of its recorder: a
    run that returns, with or without an error, leaves the series it
    found followed by the initial sample of the run and by the samples of
    its steps, so that the runs made with one [SystemSolver] pile up in
    one series.  The system, the step algorithm and the recorder of the
    receiver are unchanged. *)
Theorem SystemSolver_Solve_accumulates fuel (s : SystemSolver.t F W)
    t0 X0 h tmax w s' err w' :
  (forall ts w,
      SystemSolver.recorder_get s (SystemSolver.recorder_set s ts w) = ts) ->
  (forall tm Xm,
      preserves (SystemSolver.recorder_get s)
        (iteration (SystemSolver.solver s)
           (System_F (SystemSolver.system s)) tm Xm h)) ->
  (forall msg, preserves (SystemSolver.recorder_get s) (log_Printf msg)) ->
  SystemSolver.Solve log_Printf fuel s t0 X0 h tmax w = Ret (s', err) w' ->
  (exists l,
      SystemSolver.recorder_get s w'
      = SystemSolver.recorder_get s w
        ++ {| time := t0; state := X0 |} :: l) /\
  SystemSolver.system s' = SystemSolver.system s /\
  iteration (SystemSolver.solver s') = iteration (SystemSolver.solver s) /\
  SystemSolver.recorder_get s' = SystemSolver.recorder_get s /\
  SystemSolver.recorder_set s' = SystemSolver.recorder_set s.
Proof.
  intros Hlens Hfit Hlog Hrun. unfold SystemSolver.Solve in Hrun.
  cbv zeta in Hrun.
  apply bind_Ret_inv in Hrun as ([solver' [n err']] & w1 & Hsolve & Hrun).
  apply bind_Ret_inv in Hrun as ([] & w2 & Hl & Hrun).
  inversion Hrun; subst. clear Hrun. cbn.
  apply Solve_Ret_series in Hsolve as [(l & Hser) Hiter];
    [|exact Hlens|exact Hfit|intros; apply preserves_StopAtTime].
  match type of Hl with
  | log_Printf ?msg _ = _ => pose proof (Hlog msg w1) as Hw2
  end.
  rewrite Hl in Hw2. simpl in Hw2.
  split; [exists l; rewrite Hw2; exact Hser|]. auto.
Qed.

(** X23.  A [SystemSolver] that has not run yet has an empty series:
    [SaveTimeseries] on a new [SystemSolver] returns the error "the
    timeseries has no data" and creates no file. *)
Theorem SaveTimeseries_before_Solve (get : W -> TimeSeries F) set
    (system : System F W) csvpath names w :
  (forall ts w, get (set ts w) = ts) ->
  (do s <- SystemSolver.NewSystemSolver get set system ;;
   SystemSolver.SaveTimeseries File os_Create file_WriteString file_Close
     log_Printf Sprintf_4f Sprintf_12f Sprintf_v s csvpath names) w
  = Ret (Some "the timeseries has no data"%string) (set [] w).
Proof.
  intros Hlens. unfold bind, SystemSolver.NewSystemSolver,
    SystemSolver.SaveTimeseries, SystemSolver.Series. cbn.
  rewrite Hlens. reflexivity.
Qed.
End SystemSolverFacts.

(* ------------------------------------------------------------------ *)
(** ** The command of the demonstrations *)

Section DemoFacts.
Context {W : Type}.
Variable DemoSpring01 DemoSpring02 DemoSpring03 : main.demofunc (W := W).
Variable DemoLorenz DemoLaser DemoLaserFirstReturnMap : main.demofunc (W := W).
Variable DemoWaterTank DemoCascadingWaterTank DemoVolterra
  : main.demofunc (W := W).

(** X25.  Every demonstration of the list can be reached: asked for the
    label of an entry of [demolist], [getDemoFunc] returns the function of
    that entry and a [nil] error, no entry being hidden by an earlier one
    with the same label; asked for any other label it returns no function
    and the error "ERR: The demo <label> does not exist". *)
Theorem getDemoFunc_spec (label' : string) (w : W) :
  let demos :=
    main.demolist DemoSpring01 DemoSpring02 DemoSpring03 DemoLorenz DemoLaser
      DemoLaserFirstReturnMap DemoWaterTank DemoCascadingWaterTank
      DemoVolterra in
  let find :=
    main.getDemoFunc DemoSpring01 DemoSpring02 DemoSpring03 DemoLorenz
      DemoLaser DemoLaserFirstReturnMap DemoWaterTank DemoCascadingWaterTank
      DemoVolterra in
  (forall demo,
      demo ∈ demos ->
      find (main.label demo) w = Ret (Some (main.function demo), None) w) /\
  (label' ∉ main.label <$> demos ->
   find label' w
   = Ret (None, Some ("ERR: The demo " +:+ label' +:+ " does not exist")) w).
Proof.
  intros demos find. unfold demos, find. clear demos find. split.
  - intros demo Hin. unfold main.demolist in Hin.
    repeat (apply elem_of_cons in Hin as [->|Hin]; [reflexivity|]).
    apply elem_of_nil in Hin. destruct Hin.
  - intros Hnot. unfold main.demolist in Hnot. cbn [fmap list_fmap] in Hnot.
    cbn [main.label] in Hnot.
    unfold main.getDemoFunc, main.demolist. cbn [length main.getDemoFunc_loop].
    repeat (erewrite bind_Ret by (apply index_Some; reflexivity);
            cbn [main.label];
            rewrite decide_False
              by (intros <-; apply Hnot;
                  repeat first [apply list_elem_of_here
                               |apply list_elem_of_further])).
    reflexivity.
Qed.
End DemoFacts.

(* ------------------------------------------------------------------ *)
(** ** The time limit, in the arithmetic of the numbers *)

Section StopAtTimeFacts.
Context {F : Type} `{Float64Ops F} {W : Type}.

(** [StopAtTime] answers by its test, with a [nil] error, and leaves the
    memory alone. *)
Lemma StopAtTime_within (tmax t : F) (X : list F) (w : W) :
  StopAtTime tmax t X w = Ret (negb (within_limit tmax t), None) w.
Proof.
  unfold StopAtTime, within_limit. cbv zeta.
  destruct (_ || _); reflexivity.
Qed.

End StopAtTimeFacts.


(* ------------------------------------------------------------------ *)
(** ** The times of the recorded series *)

Section SeriesTimes.
Context {F : Type} `{Float64Ops F} {W : Type}.
Variable t0 h : F.

Lemma sample_time_shift i :
  sample_time (fadd t0 h) h i = sample_time t0 h (S i).
Proof.
  unfold sample_time. induction i as [|i IH]; [reflexivity|].
  simpl Nat.iter in *. rewrite IH. reflexivity.
Qed.




Section Loop.
Variable solver : StandardSolver F W.
Variable f : Function F W.
Variable c : Controller F W.
Variable get : W -> TimeSeries F.
Variable set : TimeSeries F -> W -> W.
Hypothesis get_set : forall ts w, get (set ts w) = ts.
Hypothesis step_frame :
  forall tm Xm, preserves get (iteration solver f tm Xm h).
Hypothesis control_frame : forall t X, preserves get (c t X).

End Loop.

End SeriesTimes.


(* ------------------------------------------------------------------ *)
(** ** Runs to a time limit *)

Section TimeLimit.
Context {F : Type} `{Float64Ops F} {W : Type}.
Variable solver : StandardSolver F W.
Variable f : Function F W.
Variable h tmax : F.
Variable get : W -> TimeSeries F.
Variable set : TimeSeries F -> W -> W.
Hypothesis get_set : forall ts w, get (set ts w) = ts.
Variable dim : nat.
Hypothesis step_ok : forall tm Xm w,
  length Xm = dim ->
  exists Xn w1,
    iteration solver f tm Xm h w = Ret (Xn, None) w1 /\
    get w1 = get w /\ length Xn = dim.

(** From a current time whose next [k] sample times pass the test of the
    controller and whose sample time after these fails it, the loop
    commits [k] passes and returns on the next one. *)
Lemma solve_loop_StopAtTime k : forall tm Xm nb w,
  length Xm = dim ->
  (forall i, 1 <= i <= k -> within_limit tmax (sample_time tm h i) = true) ->
  within_limit tmax (sample_time tm h (S k)) = false ->
  exists Xk w' l,
    solve_loop (S k) solver f h (StopAtTime tmax)
      (RecorderTimeSeries get set) tm Xm nb w
    = Ret ({| t := sample_time tm h k; X := Xk;
              iteration := iteration solver |},
           (Nat.iter k uint64_incr nb, None)) w' /\
    get w' = get w ++ l /\
    length l = S k /\
    (forall i d, l !! i = Some d -> time d = sample_time tm h (S i)).
Proof.
  induction k as [|k IH]; intros tm Xm nb w Hdim Hpass Hfail.
  - destruct (step_ok tm Xm w Hdim) as (Xn & w1 & Hit & Hg & _).
    cbn [solve_loop].
    erewrite bind_Ret by exact Hit. cbv beta iota zeta.
    set (d := {| time := fadd tm h; state := Xn |}).
    rewrite (bind_Ret (Record (RecorderTimeSeries get set) (fadd tm h) Xn)
               _ w1 tt (set (get w1 ++ [d]) w1) eq_refl).
    erewrite bind_Ret by apply StopAtTime_within.
    change (fadd tm h) with (sample_time tm h 1). rewrite Hfail.
    cbv beta iota. cbn [negb].
    exists Xm, (set (get w1 ++ [d]) w1), [d].
    split; [reflexivity|].
    split; [rewrite get_set, Hg; reflexivity|].
    split; [reflexivity|].
    intros [|i] di Hi; [|destruct i; discriminate].
    inversion Hi; subst di. reflexivity.
  - destruct (step_ok tm Xm w Hdim) as (Xn & w1 & Hit & Hg & Hdim').
    cbn [solve_loop].
    erewrite bind_Ret by exact Hit. cbv beta iota zeta.
    set (d := {| time := fadd tm h; state := Xn |}).
    set (w2 := set (get w1 ++ [d]) w1).
    rewrite (bind_Ret (Record (RecorderTimeSeries get set) (fadd tm h) Xn)
               _ w1 tt w2 eq_refl).
    erewrite bind_Ret by apply StopAtTime_within.
    change (within_limit tmax (fadd tm h))
      with (within_limit tmax (sample_time tm h 1)).
    rewrite (Hpass 1) by lia. cbv beta iota. cbn [negb].
    destruct (IH (fadd tm h) Xn (uint64_incr nb) w2 Hdim')
      as (Xk & w' & l & Hrun & Hser & Hlen & Htimes).
    { intros i Hi. rewrite sample_time_shift. apply Hpass. lia. }
    { rewrite sample_time_shift. exact Hfail. }
    exists Xk, w', (d :: l).
    rewrite sample_time_shift, iter_incr_shift in Hrun.
    split; [exact Hrun|].
    split.
    { rewrite Hser. unfold w2. rewrite get_set, Hg, <- app_assoc.
      reflexivity. }
    split; [simpl; rewrite Hlen; reflexivity|].
    intros [|i] di Hi.
    + inversion Hi; subst di. reflexivity.
    + simpl in Hi. rewrite (Htimes i di Hi). apply sample_time_shift.
Qed.

End TimeLimit.

Section TimeLimitClaim.
Context {F : Type} `{Float64Ops F} {W : Type}.

(** A run to a time limit, from the initial sample on. *)
Lemma Solve_StopAtTime_run (solver : StandardSolver F W) f t0 X0 h tmax
    (get : W -> TimeSeries F) set w k fuel :
  (forall ts w, get (set ts w) = ts) ->
  (forall tm Xm w,
      length Xm = length X0 ->
      exists Xn w1,
        iteration solver f tm Xm h w = Ret (Xn, None) w1 /\
        get w1 = get w /\ length Xn = length X0) ->
  (forall i, 1 <= i <= k -> within_limit tmax (sample_time t0 h i) = true) ->
  within_limit tmax (sample_time t0 h (S k)) = false ->
  k < fuel ->
  exists s' w' l,
    Solve fuel solver (Some f) t0 X0 h (StopAtTime tmax)
      (Some (RecorderTimeSeries get set)) w
    = Ret (s', (count_after k, None)) w' /\
    get w' = get w ++ l /\
    length l = k + 2 /\
    times_from t0 h l /\
    t s' = sample_time t0 h k.
Proof.
  intros Hlens Hstep Hpass Hfail Hfuel.
  set (d0 := {| time := t0; state := X0 |}).
  set (w0 := set (get w ++ [d0]) w).
  destruct (solve_loop_StopAtTime solver f h tmax get set Hlens
              (length X0) Hstep k t0 X0 0%N w0 eq_refl Hpass Hfail)
    as (Xk & w' & l & Hrun & Hser & Hlen & Htimes).
  exists {| t := sample_time t0 h k; X := Xk;
            iteration := iteration solver |}, w', (d0 :: l).
  split.
  { apply (Solve_fuel_mono (S k)); [|lia].
    unfold Solve. cbv zeta.
    rewrite (bind_Ret (Record (RecorderTimeSeries get set) t0 X0) _ w tt w0
               eq_refl).
    rewrite Hrun, uint64_incr_iter. reflexivity. }
  split.
  { rewrite Hser. unfold w0. rewrite Hlens, <- app_assoc. reflexivity. }
  split; [simpl; rewrite Hlen; lia|].
  split; [|reflexivity].
  intros [|i] d Hd.
  - inversion Hd; subst d. reflexivity.
  - simpl in Hd. exact (Htimes i d Hd).
Qed.

End TimeLimitClaim.


(* ------------------------------------------------------------------ *)
(** ** Numbers that are not numbers *)

Section NaNFacts.

Lemma sub_NaN (x y : float) :
  float64_is_NaN x \/ float64_is_NaN y -> float64_is_NaN (x - y)%float.
Proof.
  unfold float64_is_NaN. intros Hn. rewrite sub_spec.
  destruct Hn as [-> | ->]; [reflexivity|].
  destruct (Prim2SF x); reflexivity.
Qed.

Lemma add_NaN (x y : float) :
  float64_is_NaN x \/ float64_is_NaN y -> float64_is_NaN (x + y)%float.
Proof.
  unfold float64_is_NaN. intros Hn. rewrite add_spec.
  destruct Hn as [-> | ->]; [reflexivity|].
  destruct (Prim2SF x); reflexivity.
Qed.

Lemma abs_NaN (x : float) : float64_is_NaN x -> float64_is_NaN (abs x).
Proof.
  unfold float64_is_NaN. intros Hx. rewrite abs_spec, Hx. reflexivity.
Qed.

Lemma ltb_NaN (x y : float) : float64_is_NaN x -> (x <? y)%float = false.
Proof.
  unfold float64_is_NaN. intros Hx. rewrite ltb_spec, Hx. reflexivity.
Qed.

Lemma leb_NaN (x y : float) :
  float64_is_NaN x \/ float64_is_NaN y -> (x <=? y)%float = false.
Proof.
  unfold float64_is_NaN. intros Hn. rewrite leb_spec.
  destruct Hn as [-> | ->]; [reflexivity|].
  destruct (Prim2SF x) as [s|s| |s m e]; try reflexivity;
    destruct s; reflexivity.
Qed.

(** A time or a limit that is not a number fails the test of
    [StopAtTime]: every comparison with it is false. *)
Lemma within_limit_NaN (tmax t : float) :
  float64_is_NaN t \/ float64_is_NaN tmax -> within_limit tmax t = false.
Proof.
  intros Hn. unfold within_limit. cbn [fabs fsub fltb fleb float64_ops].
  rewrite ltb_NaN by (apply abs_NaN, sub_NaN; exact Hn).
  rewrite leb_NaN by exact Hn. reflexivity.
Qed.

Context {W : Type}.

(** X10.  In binary64, a run to [StopAtTime(tmax)] in which [t0], [h] or
    [tmax] is not a number stops on its first step and reports success:
    the first sample time or the limit is NaN, the comparisons of the
    controller are false, and [Solve] returns a [nil] error with the
    count 0, having recorded the initial sample and one step; the time
    that [Result()] gives is [t0]. *)
Theorem Solve_NaN_stops_at_once (solver : StandardSolver float W) f t0 X0 h
    tmax (get : W -> TimeSeries float) set w fuel :
  (forall ts w, get (set ts w) = ts) ->
  (forall tm Xm w,
      length Xm = length X0 ->
      exists Xn w1,
        iteration solver f tm Xm h w = Ret (Xn, None) w1 /\
        get w1 = get w /\ length Xn = length X0) ->
  float64_is_NaN t0 \/ float64_is_NaN h \/ float64_is_NaN tmax ->
  0 < fuel ->
  exists s' w' l,
    Solve fuel solver (Some f) t0 X0 h (StopAtTime tmax)
      (Some (RecorderTimeSeries get set)) w
    = Ret (s', (0%N, None)) w' /\
    get w' = get w ++ l /\
    length l = 2 /\
    t s' = t0.
Proof.
  intros Hlens Hstep Hn Hfuel.
  destruct (Solve_StopAtTime_run solver f t0 X0 h tmax get set w 0 fuel
              Hlens Hstep) as (s' & w' & l & Hrun & Hser & Hlen & _ & Ht).
  - intros i Hi. lia.
  - apply within_limit_NaN.
    destruct Hn as [Hn | [Hn | Hn]]; [left|left|right; exact Hn];
      apply add_NaN; [left|right]; exact Hn.
  - exact Hfuel.
  - exists s', w', l. auto.
Qed.
End NaNFacts.

(* ------------------------------------------------------------------ *)
(** ** The systems and their states *)

Section SystemStates.
Context {F : Type} `{Float64Ops F} {W : Type}.

Lemma zip_with_replicate_tail (g : F -> F -> F) (x : F) m :
  zip_with g (x :: replicate m x) (replicate m x) = replicate m (g x x).
Proof.
  induction m as [|m IH]; [reflexivity|].
  cbn [replicate zip_with]. f_equal. exact IH.
Qed.

(** X19.  On the constant state [NewConstantX(n, h)] with [n > 0], the
    rate function of the cascade returns [d - a·h] for the first tank and
    [a·(h - h)] for each of the [n - 1] others, each computed by the
    program's arithmetic; with [n = 0] the state is empty and the rate
    function panics, and with [n < 0] [NewConstantX] panics. *)
Theorem CascadingWaterTank_constant_state
    (sys : CascadingWaterTankSystem.t F) tm (n : Z) (h : F) (w : W) :
  (do X <- CascadingWaterTankSystem.NewConstantX n h ;;
   CascadingWaterTankSystem.F sys tm X) w
  = match n with
    | Zpos p =>
        Ret (fsub (CascadingWaterTankSystem.d sys)
                  (fmul (CascadingWaterTankSystem.a sys) h)
             :: replicate (Pos.to_nat p - 1)
                  (fmul (CascadingWaterTankSystem.a sys) (fsub h h)),
             None) w
    | Z0 | Zneg _ => Crash w
    end.
Proof.
  destruct n as [|p|p].
  - reflexivity.
  - erewrite bind_Ret by (apply NewConstantX_replicate; lia).
    rewrite Z2Nat.inj_pos.
    destruct (Pos2Nat.is_succ p) as [m ->].
    cbn [replicate]. rewrite CascadingWaterTank_F_cons.
    rewrite zip_with_replicate_tail.
    replace (S m - 1) with m by lia. reflexivity.
  - reflexivity.
Qed.

(** A panic of the first step is a panic of the run, after the initial
    sample has been recorded. *)
Lemma Solve_first_step_Crash fuel (solver : StandardSolver F W) f t0 X0 h c
    r w w1 w2 :
  Record (recorder_or_none r) t0 X0 w = Ret tt w1 ->
  iteration solver f t0 X0 h w1 = Crash w2 ->
  Solve (S fuel) solver (Some f) t0 X0 h c r w = Crash w2.
Proof.
  intros Hrec Hit. unfold Solve. fold (recorder_or_none r).
  erewrite bind_Ret by exact Hrec. cbn [solve_loop].
  apply bind_Crash. exact Hit.
Qed.

Lemma package_step_Crash (step : Iteration F W) f tn Xn h w w' :
  step = eulerIteration \/ step = rk2Iteration \/ step = rk4Iteration ->
  f tn Xn w = Crash w' ->
  step f tn Xn h w = Crash w'.
Proof.
  intros [-> | [-> | ->]] Hf;
    [unfold eulerIteration|unfold rk2Iteration|unfold rk4Iteration];
    cbv zeta; apply bind_Crash; exact Hf.
Qed.

(** X20.  The prey-predator system and the water tank are systems of a
    fixed dimension.  With an Euler, RK2 or RK4 solver, a run of [Solve]
    on [VolterraSystem.F] from a state that has not exactly two
    components, or on [WaterTankSystem.F] from a state that has not
    exactly one, panics (index out of range) in its first step, after the
    initial sample has been recorded: on too short a state the rate
    function reads a component that is missing, on too long a state it
    returns fewer rates than the step algorithm reads. *)
Theorem Solve_wrong_dimension_panics fuel (solver : StandardSolver F W)
    t0 X0 h c r w w1 :
  iteration solver = eulerIteration \/ iteration solver = rk2Iteration \/
  iteration solver = rk4Iteration ->
  Record (recorder_or_none r) t0 X0 w = Ret tt w1 ->
  (forall sys : VolterraSystem.t F,
      length X0 <> 2 ->
      Solve (S fuel) solver (Some (VolterraSystem.F sys)) t0 X0 h c r w
      = Crash w1) /\
  (forall sys : WaterTankSystem.t F,
      length X0 <> 1 ->
      Solve (S fuel) solver (Some (WaterTankSystem.F sys)) t0 X0 h c r w
      = Crash w1).
Proof.
  intros Hpkg Hrec. split; intros sys Hdim;
    apply (Solve_first_step_Crash fuel solver _ t0 X0 h c r w w1 w1 Hrec).
  - destruct X0 as [|x [|y [|z X0]]]; [| |simpl in Hdim; lia|].
    + apply package_step_Crash; [exact Hpkg|reflexivity].
    + apply package_step_Crash; [exact Hpkg|reflexivity].
    + eapply package_step_short_slope; [exact Hpkg|reflexivity|].
      simpl. lia.
  - destruct X0 as [|x [|y X0]]; [|simpl in Hdim; lia|].
    + apply package_step_Crash; [exact Hpkg|reflexivity].
    + eapply package_step_short_slope; [exact Hpkg|reflexivity|].
      simpl. lia.
Qed.
(** X21.  On a state of the right dimension the step never panics: one
    step of the Euler, RK2 or RK4 algorithm on [WaterTankSystem.F] from a
    state of one component, or on [VolterraSystem.F] from a state of two,
    returns a state of the same dimension and a [nil] error and leaves the
    memory as it was, whatever the numbers are (NaN and the infinities
    included). *)
Theorem system_step_returns (step : Iteration F W) tm X h (w : W) :
  step = eulerIteration \/ step = rk2Iteration \/ step = rk4Iteration ->
  (forall sys : WaterTankSystem.t F,
      length X = 1 ->
      exists Xn,
        step (WaterTankSystem.F sys) tm X h w = Ret (Xn, None) w /\
        length Xn = 1) /\
  (forall sys : VolterraSystem.t F,
      length X = 2 ->
      exists Xn,
        step (VolterraSystem.F sys) tm X h w = Ret (Xn, None) w /\
        length Xn = 2).
Proof.
  intros [-> | [-> | ->]]; split; intros sys Hdim;
    destruct X as [|x [|y [|z X]]]; try discriminate;
    eexists; split; reflexivity.
Qed.
End SystemStates.

(* ------------------------------------------------------------------ *)
(** ** The run of the water tank *)

Section WaterTankRun.
Context {W : Type}.
Variable log_Printf : string -> M W unit.
Variable get : W -> TimeSeries float.
Variable set : TimeSeries float -> W -> W.
Hypothesis get_set : forall ts w, get (set ts w) = ts.
Hypothesis log_returns : forall msg w,
  exists w', log_Printf msg w = Ret tt w' /\ get w' = get w.

Lemma forallb_seq_le (p : nat -> bool) k :
  forallb p (seq 1 k) = true -> forall i, 1 <= i <= k -> p i = true.
Proof.
  intros Hall i Hi. rewrite forallb_forall in Hall.
  apply Hall. apply in_seq. lia.
Qed.

Lemma WaterTank_step_ok (sys : WaterTankSystem.t float) tm Xm h (w : W) :
  length Xm = 1 ->
  exists Xn w1,
    rk4Iteration (WaterTankSystem.F sys) tm Xm h w = Ret (Xn, None) w1 /\
    get w1 = get w /\ length Xn = 1.
Proof.
  destruct Xm as [|x [|y Xm]]; try discriminate. intros _.
  eexists _, w. split; [reflexivity|]. split; reflexivity.
Qed.

(** X24.  The run of [DemoWaterTank] in binary64: for a water tank with
    [a = 1] and any [d], a new [SystemSolver] run on the default input
    (step [1/40], limit 8) returns a [nil] error after 320 iterations,
    which it logs, and the series has 322 samples.  The time that the
    solver holds is not 8: the 320 additions of the step give
    [8 + 26·2^-49], 26 units in the last place above the limit, and it is
    the tolerance of [StopAtTime] that lets this sample be committed. *)
Theorem WaterTank_default_run (d : float) t0 X0 step tmax (w : W) :
  WaterTankSystem.GetDefaultInput (unit_drain_tank d) = (t0, X0, step, tmax) ->
  exists s' w1 w',
    (do s <- SystemSolver.NewSystemSolver get set
               (WaterTankSystem.as_System (unit_drain_tank d)) ;;
     SystemSolver.Solve log_Printf 321 s t0 X0 step tmax) w
    = Ret (s', None) w' /\
    log_Printf ("DBG: number of iterations: 320" +:+ newline) w1
    = Ret tt w' /\
    length (get w') = 322 /\
    float64_value tmax = Some (4503599627370496 # 562949953421312) /\
    float64_value (t (SystemSolver.solver s'))
    = Some (4503599627370522 # 562949953421312).
Proof.
  intros Hin.
  unfold WaterTankSystem.GetDefaultInput, unit_drain_tank in Hin.
  cbn [WaterTankSystem.d WaterTankSystem.a] in Hin.
  injection Hin as <- <- <- <-.
  set (h := fdiv (fdiv (flit 1) (flit 1)) (flit 40)).
  set (tmax := fmul (flit 8) (fdiv (flit 1) (flit 1))).
  set (X0 := [fadd (flit 1) (fdiv d (flit 1))]).
  set (sys := {| WaterTankSystem.d := d; WaterTankSystem.a := flit 1 |}).
  set (w0 := set [] w).
  destruct (Solve_StopAtTime_run NewRK4Solver (WaterTankSystem.F sys)
              (flit 0) X0 h tmax get set w0 320 321 get_set)
    as (s' & w2 & l & Hrun & Hser & Hlen & _ & Ht).
  { intros tm Xm w' Hdim. apply WaterTank_step_ok. exact Hdim. }
  { apply forallb_seq_le. vm_compute. reflexivity. }
  { vm_compute. reflexivity. }
  { lia. }
  destruct (log_returns ("DBG: number of iterations: 320" +:+ newline) w2)
    as (w3 & Hlog & Hw3).
  exists {| SystemSolver.system := WaterTankSystem.as_System sys;
            SystemSolver.solver := s';
            SystemSolver.recorder_get := get;
            SystemSolver.recorder_set := set |}, w2, w3.
  split; [|split; [exact Hlog|split; [|split]]].
  - unfold bind at 1. unfold SystemSolver.NewSystemSolver. fold w0.
    unfold SystemSolver.Solve. cbv zeta. cbn [SystemSolver.solver
      SystemSolver.system SystemSolver.recorder_get SystemSolver.recorder_set
      WaterTankSystem.as_System System_F].
    erewrite bind_Ret by exact Hrun. cbv beta iota.
    assert (Hn : pretty (count_after 320) = "320"%string)
      by (vm_compute; reflexivity).
    rewrite Hn. erewrite bind_Ret by exact Hlog. reflexivity.
  - rewrite Hw3, Hser. unfold w0. rewrite get_set. exact Hlen.
  - vm_compute. reflexivity.
  - cbn [SystemSolver.solver]. rewrite Ht. vm_compute. reflexivity.
Qed.
End WaterTankRun.

(* ------------------------------------------------------------------ *)
(** ** Facts for concrete runs *)

Section ConcreteRuns.
Context {F : Type} `{Float64Ops F} {W : Type}.


(** The RK4 step on [dx/dt = 1] returns on a state of one component. *)
Lemma rk4Iteration_unit_rate (get : W -> TimeSeries F) tm Xm h (w : W) :
  length Xm = 1 ->
  exists Xn w1,
    rk4Iteration unit_rate tm Xm h w = Ret (Xn, None) w1 /\
    get w1 = get w /\ length Xn = 1.
Proof.
  destruct Xm as [|x [|y Xm]]; try discriminate. intros _.
  eexists _, w. split; [reflexivity|]. split; reflexivity.
Qed.
End ConcreteRuns.


(* ------------------------------------------------------------------ *)
(** ** Concrete runs of the further properties *)

Lemma eulerIteration_spec_witness :
  eulerIteration growth 0%Q [1; 2]%Q (1 # 2)%Q tt
  = Ret (vadd [1; 2]%Q (vscale (1 # 2)%Q [1; 2]%Q), None) tt.
Proof.
  apply (eulerIteration_spec growth 0%Q [1; 2]%Q (1 # 2)%Q tt [1; 2]%Q tt).
  - reflexivity.
  - simpl. lia.
Defined.

Lemma rk2Iteration_spec_witness :
  let s2 := vadd [1]%Q (vdiv (vscale 1%Q [1]%Q) 2%Q) in
  rk2Iteration growth 0%Q [1]%Q 1%Q tt = Ret (vadd [1]%Q (vscale 1%Q s2), None) tt.
Proof.
  intros s2.
  apply (rk2Iteration_spec growth 0%Q [1]%Q 1%Q tt [1]%Q tt s2 tt).
  - reflexivity.
  - simpl. lia.
  - reflexivity.
  - simpl. lia.
Defined.

Lemma step_keeps_dimension_witness :
  length (vadd [1; 2]%Q (vscale 1%Q [1; 2]%Q)) = length [1; 2]%Q.
Proof.
  apply (step_keeps_dimension eulerIteration growth 0%Q [1; 2]%Q 1%Q tt
           (vadd [1; 2]%Q (vscale 1%Q [1; 2]%Q)) None tt).
  - left. reflexivity.
  - reflexivity.
Defined.

Lemma step_short_slope_panics_witness :
  rk4Iteration unit_slope 0%Q [0; 0]%Q 1%Q tt = Crash tt.
Proof.
  apply (step_short_slope_panics rk4Iteration unit_slope 0%Q [0; 0]%Q 1%Q tt
           [1%Q] tt).
  - right. right. reflexivity.
  - reflexivity.
  - simpl. lia.
Defined.

Lemma Solve_never_returns_witness :
  exists w',
    Solve 7 NewRK4Solver (Some unit_slope) 0%Q [0%Q] 1%Q (NeverStop "c")
      None [] = Fuel w'.
Proof.
  apply (Solve_never_returns 7 NewRK4Solver unit_slope 0%Q [0%Q] 1%Q
           (NeverStop "c") None []).
  - intros tm Xm w Hdim.
    destruct (rk4Iteration_unit_slope tm Xm 1%Q w Hdim)
      as (Xn & w1 & Hrun & _ & Hlen).
    exists Xn, w1. split; [exact Hrun|exact Hlen].
  - intros t X w. exists w. reflexivity.
  - intros t X w. eexists. reflexivity.
Defined.

Lemma Solve_controller_error_witness :
  let d0 := {| time := 0%Q; state := [1%Q] |} in
  let d1 := {| time := (0 + 1)%Q; state := [2%Q] |} in
  Solve 5 NewEulerSolver (Some growth) 0%Q [1%Q] 1%Q GiveUp
    (Some demo_recorder) []
  = Ret (NewEulerSolver, (count_after 0, Some "diverged"%string)) [d0; d1] /\
  (forall get set,
      Some demo_recorder = Some (RecorderTimeSeries get set) ->
      (forall ts w, get (set ts w) = ts) ->
      (forall tm Xm,
          preserves get (iteration NewEulerSolver growth tm Xm 1%Q)) ->
      (forall t X, preserves get (GiveUp t X)) ->
      get [d0; d1] = get [] ++ d0 :: [] ++ [d1]).
Proof.
  intros d0 d1.
  assert (Hfuel : length (@nil (TimeData Q)) < 5) by (simpl; lia).
  exact (Solve_controller_error 5 NewEulerSolver growth 0%Q [1%Q] 1%Q GiveUp
           (Some demo_recorder) [] [d0] [] 0%Q [1%Q] [d0] [2%Q] [d0] [d0; d1]
           false "diverged"%string [d0; d1] eq_refl
           (commits_nil _ _ _ _ _ _) eq_refl eq_refl eq_refl Hfuel).
Defined.

Lemma Solve_success_series_witness :
  let s' : StandardSolver Q demo_world :=
    {| t := 1%Q; X := [6 # 6]%Q; iteration := rk4Iteration |} in
  let w' : demo_world :=
            [ {| time := 0%Q; state := [0%Q] |};
              {| time := 1%Q; state := [6 # 6]%Q |};
              {| time := 2%Q; state := [72 # 36]%Q |} ] in
  exists l dlast,
    w' = [] ++ {| time := 0%Q; state := [0%Q] |} :: l ++ [dlast] /\
    1%N = count_after (length l) /\
    last ({| time := 0%Q; state := [0%Q] |} :: l)
    = Some {| time := t s'; state := X s' |} /\
    time dlast = (t s' + 1)%Q.
Proof.
  intros s' w'.
  refine (Solve_success_series 5 NewRK4Solver unit_slope 0%Q [0%Q] 1%Q
            (StopAtTime (3 # 2)%Q) (fun w : demo_world => w) (fun ts _ => ts)
            [] s' 1%N w' _ _ _ _).
  - reflexivity.
  - intros tm Xm. apply preserves_rk4Iteration.
    intros t X. apply preserves_ret.
  - intros t X. apply preserves_StopAtTime.
  - reflexivity.
Defined.

Lemma Solve_series_dimension_witness :
  let s' : StandardSolver Q demo_world :=
    {| t := 1%Q; X := [6 # 6]%Q; iteration := rk4Iteration |} in
  let w' : demo_world :=
            [ {| time := 0%Q; state := [0%Q] |};
              {| time := 1%Q; state := [6 # 6]%Q |};
              {| time := 2%Q; state := [72 # 36]%Q |} ] in
  exists l,
    w' = [] ++ l /\
    Forall (fun d => length (state d) = length [0%Q]) l /\
    ((None : option error) = None -> length (X s') = length [0%Q]).
Proof.
  intros s' w'.
  refine (Solve_series_dimension 5 NewRK4Solver unit_slope 0%Q [0%Q] 1%Q
            (StopAtTime (3 # 2)%Q) (fun w : demo_world => w) (fun ts _ => ts)
            [] s' 1%N None w' _ _ _ _ _).
  - right. right. reflexivity.
  - reflexivity.
  - intros t X. apply preserves_ret.
  - intros t X. apply preserves_StopAtTime.
  - reflexivity.
Defined.

Lemma Solve_sample_times_witness :
  let s' : StandardSolver Q demo_world :=
    {| t := 1%Q; X := [6 # 6]%Q; iteration := rk4Iteration |} in
  let w' : demo_world :=
            [ {| time := 0%Q; state := [0%Q] |};
              {| time := 1%Q; state := [6 # 6]%Q |};
              {| time := 2%Q; state := [72 # 36]%Q |} ] in
  exists l,
    w' = [] ++ l /\
    (forall i d, l !! i = Some d ->
                 time d = Nat.iter i (fun tm => (tm + 1)%Q) 0%Q) /\
    ((None : option error) = None ->
     exists k, 1%N = count_after k /\ length l = k + 2 /\
               t s' = Nat.iter k (fun tm => (tm + 1)%Q) 0%Q).
Proof.
  intros s' w'.
  refine (Solve_sample_times 5 NewRK4Solver unit_slope 0%Q [0%Q] 1%Q
            (StopAtTime (3 # 2)%Q) (fun w : demo_world => w) (fun ts _ => ts)
            [] s' 1%N None w' _ _ _ _).
  - reflexivity.
  - intros tm Xm. apply preserves_rk4Iteration.
    intros t X. apply preserves_ret.
  - intros t X. apply preserves_StopAtTime.
  - reflexivity.
Defined.

Lemma RecorderLogger_short_state_panics_witness :
  Solve 5 NewRK4Solver (Some unit_slope) 0%Q [0%Q] 1%Q (StopAtTime 1%Q)
    (Some (RecorderLogger silent_Printf)) tt
  = Crash tt.
Proof.
  apply (RecorderLogger_short_state_panics 5 NewRK4Solver unit_slope 0%Q
           [0%Q] 1%Q (StopAtTime 1%Q) silent_Printf tt).
  simpl. lia.
Defined.

Lemma ToCSVwithNames_refuses_witness :
  let first := {| time := 0%Q; state := [1; 2]%Q |} in
  ToCSVwithNames unit locked_Create idle_WriteString idle_Close quiet_log
    show_Q show_Q show_names [first] "out.csv" ["h"]%string tt
  = Ret (Some ("the names (" +:+ show_names ["h"]%string +:+
               ") does not match with the state dimension")) tt /\
  ToCSVwithNames unit locked_Create idle_WriteString idle_Close quiet_log
    show_Q show_Q show_names [first] "out.csv" ["x"; "y"]%string tt
  = Ret (Some "permission denied"%string) tt.
Proof.
  intros first. split.
  - apply (proj1 (ToCSVwithNames_refuses unit locked_Create idle_WriteString
                    idle_Close quiet_log show_Q show_Q show_names first []
                    "out.csv" ["h"]%string tt)).
    simpl. lia.
  - apply (proj2 (ToCSVwithNames_refuses unit locked_Create idle_WriteString
                    idle_Close quiet_log show_Q show_Q show_names first []
                    "out.csv" ["x"; "y"]%string tt) tt).
    + reflexivity.
    + reflexivity.
Defined.

Lemma ToCSVwithNames_writes_witness :
  let first := {| time := 0%Q; state := [1; 2]%Q |} in
  let second := {| time := 1%Q; state := [3; 4]%Q |} in
  exists w',
    ToCSVwithNames unit paper_Create paper_WriteString paper_Close quiet_log
      show_Q show_Q show_names [first; second] "out.csv" ["a"; "b"]%string []
    = Ret None w' /\
    w' = [] ++ csv_header ["a"; "b"]%string
            :: (csv_row show_Q show_Q <$> [first; second]).
Proof.
  intros first second.
  apply (ToCSVwithNames_writes unit paper_Create paper_WriteString
           paper_Close quiet_log show_Q show_Q show_names
           (fun w : paper => w) tt).
  - intros line w. eexists. split; reflexivity.
  - intros msg w. exists w. split; reflexivity.
  - intros w. exists w. split; reflexivity.
  - reflexivity.
  - reflexivity.
Defined.

Lemma SystemSolver_Solve_accumulates_witness :
  let s := {| SystemSolver.system := growth_system;
              SystemSolver.solver := NewRK4Solver;
              SystemSolver.recorder_get := fun w : demo_world => w;
              SystemSolver.recorder_set := fun ts _ => ts |} in
  let s' := {| SystemSolver.system := growth_system;
               SystemSolver.solver :=
                 {| t := 0%Q; X := [1%Q]; iteration := rk4Iteration |};
               SystemSolver.recorder_get := fun w : demo_world => w;
               SystemSolver.recorder_set := fun ts _ => ts |} in
  let old := {| time := 7%Q; state := [7%Q] |} in
  let w' := [ old; {| time := 0%Q; state := [1%Q] |};
              {| time := 1%Q; state := [520 # 192]%Q |} ] in
  (exists l, w' = [old] ++ {| time := 0%Q; state := [1%Q] |} :: l) /\
  SystemSolver.system s' = SystemSolver.system s /\
  iteration (SystemSolver.solver s') = iteration (SystemSolver.solver s) /\
  SystemSolver.recorder_get s' = SystemSolver.recorder_get s /\
  SystemSolver.recorder_set s' = SystemSolver.recorder_set s.
Proof.
  intros s s' old w'.
  apply (SystemSolver_Solve_accumulates quiet_log 5 s 0%Q [1%Q] 1%Q
           (1 # 2)%Q [old] s' None w').
  - reflexivity.
  - intros tm Xm. apply preserves_rk4Iteration.
    intros t X. apply preserves_ret.
  - intros msg. apply preserves_ret.
  - reflexivity.
Defined.

Lemma SaveTimeseries_before_Solve_witness :
  (do s <- SystemSolver.NewSystemSolver (fun w : demo_world => w)
             (fun ts _ => ts) growth_system ;;
   SystemSolver.SaveTimeseries unit locked_Create idle_WriteString idle_Close
     quiet_log show_Q show_Q show_names s "out.csv" ["x"]%string)
    [ {| time := 7%Q; state := [7%Q] |} ]
  = Ret (Some "the timeseries has no data"%string) [].
Proof.
  apply (SaveTimeseries_before_Solve unit locked_Create idle_WriteString
           idle_Close quiet_log show_Q show_Q show_names
           (fun w : demo_world => w) (fun ts _ => ts) growth_system).
  reflexivity.
Defined.

Lemma getDemoFunc_spec_witness :
  let getDemoFunc' :=
    main.getDemoFunc (W := unit)
      (demo_stub "spring01") (demo_stub "spring02") (demo_stub "spring03")
      (demo_stub "lorenz") (demo_stub "laser01") (demo_stub "laser02")
      (demo_stub "watertank") (demo_stub "cwatertank")
      (demo_stub "volterra") in
  getDemoFunc' "laser02"%string tt
  = Ret (Some (demo_stub "laser02"), None) tt /\
  getDemoFunc' "pendulum"%string tt
  = Ret (None, Some "ERR: The demo pendulum does not exist"%string) tt.
Proof.
  intros getDemoFunc'. split.
  - apply (proj1 (getDemoFunc_spec (W := unit)
                    (demo_stub "spring01") (demo_stub "spring02")
                    (demo_stub "spring03") (demo_stub "lorenz")
                    (demo_stub "laser01") (demo_stub "laser02")
                    (demo_stub "watertank") (demo_stub "cwatertank")
                    (demo_stub "volterra") "laser02"%string tt)
             {| main.label := "laser02"%string;
                main.function := demo_stub "laser02";
                main.comment :=
                  "Poincar√© map of a chaotic laser dynamics"%string |}).
    do 5 apply list_elem_of_further. apply list_elem_of_here.
  - apply (proj2 (getDemoFunc_spec (W := unit)
                    (demo_stub "spring01") (demo_stub "spring02")
                    (demo_stub "spring03") (demo_stub "lorenz")
                    (demo_stub "laser01") (demo_stub "laser02")
                    (demo_stub "watertank") (demo_stub "cwatertank")
                    (demo_stub "volterra") "pendulum"%string tt)).
    cbn. rewrite !not_elem_of_cons.
    repeat (split; [discriminate|]). apply not_elem_of_nil.
Defined.

(* ------------------------------------------------------------------ *)
(** ** Runs in binary64 *)




Lemma Solve_NaN_stops_at_once_witness :
  float64_is_NaN nan /\
  exists s' w' l,
    Solve 1 NewRK4Solver (Some unit_rate) 0%float [0%float] 1%float
      (StopAtTime nan) (Some demo_recorder64) []
    = Ret (s', (0%N, None)) w' /\
    w' = l /\
    length l = 2 /\
    t s' = 0%float.
Proof.
  split; [reflexivity|].
  refine (Solve_NaN_stops_at_once NewRK4Solver unit_rate 0%float [0%float]
            1%float nan (fun w : demo_world64 => w) (fun ts _ => ts) [] 1
            (fun ts w => eq_refl) _ _ _).
  - intros tm Xm w Hdim. apply rk4Iteration_unit_rate. exact Hdim.
  - right. right. reflexivity.
  - lia.
Defined.

Lemma Solve_wrong_dimension_panics_witness :
  let X0 : list float := [1%float; 2%float; 3%float] in
  let w1 : demo_world64 := [ {| time := 0%float; state := X0 |} ] in
  Solve 1 NewEulerSolver
    (Some (VolterraSystem.F
             {| VolterraSystem.a := 1%float; VolterraSystem.b := 1%float;
                VolterraSystem.d := 1%float; VolterraSystem.g := 1%float |}))
    0%float X0 1%float (StopAtTime 1%float) (Some demo_recorder64) []
  = Crash w1 /\
  Solve 1 NewEulerSolver
    (Some (WaterTankSystem.F (unit_drain_tank 2%float)))
    0%float X0 1%float (StopAtTime 1%float) (Some demo_recorder64) []
  = Crash w1.
Proof.
  intros X0 w1.
  pose proof (Solve_wrong_dimension_panics 0 NewEulerSolver 0%float X0
                1%float (StopAtTime 1%float) (Some demo_recorder64) [] w1
                (or_introl eq_refl) eq_refl) as [HV HW].
  split; [apply HV|apply HW]; simpl; lia.
Defined.

Lemma WaterTank_default_run_witness :
  exists s' w1 w',
    (do s <- SystemSolver.NewSystemSolver (fun w : demo_world64 => w)
               (fun ts _ => ts)
               (WaterTankSystem.as_System (unit_drain_tank 2%float)) ;;
     SystemSolver.Solve quiet_log 321 s 0%float [3%float] (1 / 40)%float
       8%float) []
    = Ret (s', None) w' /\
    quiet_log ("DBG: number of iterations: 320" +:+ newline) w1 = Ret tt w' /\
    length w' = 322 /\
    float64_value 8%float = Some (4503599627370496 # 562949953421312) /\
    float64_value (t (SystemSolver.solver s'))
    = Some (4503599627370522 # 562949953421312).
Proof.
  refine (WaterTank_default_run quiet_log (fun w : demo_world64 => w)
            (fun ts _ => ts) (fun ts w => eq_refl)
            (fun msg w => ex_intro _ w (conj eq_refl eq_refl))
            2%float 0%float [3%float] (1 / 40)%float 8%float [] _).
  vm_compute. reflexivity.
Defined.

Lemma system_step_returns_witness :
  (exists Xn,
      rk4Iteration (WaterTankSystem.F (unit_drain_tank 2%float)) 0%float
        [3%float] 1%float tt
      = Ret (Xn, None) tt /\ length Xn = 1) /\
  (exists Xn,
      rk2Iteration
        (VolterraSystem.F
           {| VolterraSystem.a := 1%float; VolterraSystem.b := 1%float;
              VolterraSystem.d := 1%float; VolterraSystem.g := 1%float |})
        0%float [nan; infinity] 1%float tt
      = Ret (Xn, None) tt /\ length Xn = 2).
Proof.
  split.
  - apply (proj1 (system_step_returns rk4Iteration 0%float [3%float]
                    1%float tt (or_intror (or_intror eq_refl)))).
    reflexivity.
  - apply (proj2 (system_step_returns rk2Iteration 0%float [nan; infinity]
                    1%float tt (or_intror (or_introl eq_refl)))).
    reflexivity.
Defined.
